(** * character-card-utils: validators and converters for character cards

    A shallow embedding of [src/index.ts].  The file has three layers:

    - the JavaScript values the functions receive ([unknown] input): the
      JSON values plus [undefined], objects as finite maps from the names of
      their own properties to values (prototypes are not modelled; the one
      place where the code can reach one, a key [__proto__] in a record, is
      described at [set_pair] and excluded by [no_proto_keys] where a
      statement depends on it);
    - the part of the [zod] library (the version the package names,
      3.21.4) that [index.ts] calls: the schema constructors [z.string],
      [z.number], [z.boolean], [z.any], [z.literal], [z.array], [z.record],
      [z.object], [z.union], the methods [optional], [merge] and
      [safeParse];
    - the exports of [index.ts] itself, under their own names: the schemas
      [v1], [entry], [book], [v2], [backfilledV2] and the functions
      [parseToV2], [safeParseToV2], [v1ToV2], [backfillV2],
      [backfillV2WithObsolescenceNotice].

    Values outside JSON-plus-undefined (functions, symbols, bigints, dates,
    maps, sets, promises) are not modelled; every schema but [z.any] rejects
    them.  Structural equality is the one the repository's tests use (Jest's
    [toEqual]): property order is irrelevant and a property bound to
    [undefined] counts as absent. *)

From Stdlib Require Import Floats.SpecFloat.
From stdpp Require Import gmap strings list fin_maps pretty.

#[local] Set Warnings "-register-all".

(** ** JavaScript values *)

Inductive value :=
| VUndefined
| VNull
| VBoolean (b : bool)
| VNumber (n : spec_float)
| VString (s : string)
| VArray (items : list value)
| VObject (props : gmap string value).

(** [data[key]]: reading a property that is absent yields [undefined]. *)
Definition prop (m : gmap string value) (key : string) : value :=
  default VUndefined (m !! key).

(** [key in data]. *)
Definition has_key (m : gmap string value) (key : string) : bool :=
  bool_decide (is_Some (m !! key)).

(** An object literal [{ ...base, k1: v1, ..., kn: vn }]: the fields are
    written left to right over the base, a later one replacing an earlier. *)
Definition set_props (fields : list (string * value)) (base : gmap string value)
  : gmap string value :=
  fold_left (λ (m : gmap string value) (kv : string * value), <[kv.1 := kv.2]> m)
    fields base.

(** The own enumerable properties a spread [...v] copies: those of an
    object, the index properties of an array or of a string, and none for
    the other values. *)
Definition spread (v : value) : gmap string value :=
  match v with
  | VObject m => m
  | VArray l => list_to_map (imap (λ i x, (pretty i, x)) l)
  | VString s =>
      list_to_map
        (imap (λ i c, (pretty i, VString (String c EmptyString)))
              (String.list_ascii_of_string s))
  | _ => ∅
  end.

(** What a JavaScript function call ends with. *)
Variant completion (E A : Type) :=
| Return (a : A)
| Throw (e : E).
Arguments Return {E A} a.
Arguments Throw {E A} e.

Definition bind {E A B} (c : completion E A) (k : A → completion E B)
  : completion E B :=
  match c with
  | Return a => k a
  | Throw e => Throw e
  end.

(** ** The zod library, as far as [index.ts] uses it *)

(** [ZodParsedType], the type tags zod reports in its issues. *)
Variant ZodParsedType :=
| parsed_string | parsed_nan | parsed_number | parsed_boolean
| parsed_undefined | parsed_null | parsed_array | parsed_object.

Definition getParsedType (data : value) : ZodParsedType :=
  match data with
  | VUndefined => parsed_undefined
  | VNull => parsed_null
  | VBoolean _ => parsed_boolean
  | VNumber S754_nan => parsed_nan
  | VNumber _ => parsed_number
  | VString _ => parsed_string
  | VArray _ => parsed_array
  | VObject _ => parsed_object
  end.

(** An issue path: property names and array indices from the root. *)
Abbreviation path := (list (string + nat)).

(** The three issue codes these schemas can raise.  The message of an
    issue is a function of the fields below and is left out. *)
Inductive ZodIssue :=
| invalid_type (p : path) (expected received : ZodParsedType)
| invalid_literal (p : path) (expected received : value)
| invalid_union (p : path) (unionErrors : list (list ZodIssue)).

(** A [ZodError] is the list of the issues of one validation. *)
Abbreviation ZodError := (list ZodIssue).

(** [z.SafeParseReturnType]: [{ success: true, data }] or
    [{ success: false, error }]. *)
Variant SafeParseReturnType :=
| SafeParseSuccess (data : value)
| SafeParseError (error : ZodError).

Definition success (r : SafeParseReturnType) : bool :=
  match r with SafeParseSuccess _ => true | SafeParseError _ => false end.

Inductive ZodType :=
| ZodString
| ZodNumber
| ZodBoolean
| ZodAny
| ZodLiteral (lit : string)
| ZodArray (element : ZodType)
| ZodRecord (valueType : ZodType)
| ZodObject (shape : list (string * ZodType))
| ZodOptional (innerType : ZodType)
| ZodUnion (options : list ZodType).

Definition result_issues (r : SafeParseReturnType) : ZodError :=
  match r with SafeParseSuccess _ => [] | SafeParseError e => e end.

Definition result_value (r : SafeParseReturnType) : value :=
  match r with SafeParseSuccess v => v | SafeParseError _ => VUndefined end.

(** The issues of the fields that failed, in field order. *)
Definition pair_issues (pairs : list (string * SafeParseReturnType * bool))
  : ZodError :=
  concat ((λ p, result_issues p.1.2) <$> pairs).

(** [finalObject[key] = value] when the value is not [undefined] or the
    pair's [alwaysSet] flag is on.  The assignment is made on a fresh [{}],
    so for the key [__proto__] it creates no property of the object's own:
    the releases from 3.22 on skip that key, and 3.21.4 lets the assignment
    reach the prototype setter, which ignores a primitive value and makes an
    object or [null] value the prototype of [finalObject].  The prototype is
    not part of the model, which holds the own properties only. *)
Definition set_pair (final : gmap string value)
    (p : string * SafeParseReturnType * bool) : gmap string value :=
  if decide (p.1.1 = "__proto__") then final
  else
    match p.1.2 with
    | SafeParseSuccess VUndefined =>
        if p.2 then <[p.1.1 := VUndefined]> final else final
    | SafeParseSuccess v => <[p.1.1 := v]> final
    | SafeParseError _ => final
    end.

Definition final_object (pairs : list (string * SafeParseReturnType * bool))
  : gmap string value :=
  fold_left set_pair pairs ∅.

(** [ParseStatus.mergeObjectSync]: invalid as soon as one pair is, with the
    issues of all of them; otherwise the object built from the pairs. *)
Definition mergeObjectSync (pairs : list (string * SafeParseReturnType * bool))
  : SafeParseReturnType :=
  if forallb (λ p, success p.1.2) pairs
  then SafeParseSuccess (VObject (final_object pairs))
  else SafeParseError (pair_issues pairs).

(** [ParseStatus.mergeArray]. *)
Definition mergeArray (results : list SafeParseReturnType) : SafeParseReturnType :=
  if forallb success results
  then SafeParseSuccess (VArray (result_value <$> results))
  else SafeParseError (concat (result_issues <$> results)).

(** [ZodType._parse] for each schema class.  An object schema is in zod's
    default [strip] mode: only the keys of its shape are read and written, so
    unknown keys of the input do not reach the output.  A key of the shape
    is always set when the input has it ([alwaysSet: key in ctx.data]); a
    record sets no such flag, and its output never has [__proto__] as a key
    of its own (see [set_pair]).  A record visits the input's keys in the
    map's enumeration order; its key schema [z.string()] accepts every
    property name. *)
Fixpoint _parse (t : ZodType) (p : path) (data : value) {struct t}
  : SafeParseReturnType :=
  match t with
  | ZodString =>
      match data with
      | VString _ => SafeParseSuccess data
      | _ => SafeParseError [invalid_type p parsed_string (getParsedType data)]
      end
  | ZodNumber =>
      match getParsedType data with
      | parsed_number => SafeParseSuccess data
      | received => SafeParseError [invalid_type p parsed_number received]
      end
  | ZodBoolean =>
      match data with
      | VBoolean _ => SafeParseSuccess data
      | _ => SafeParseError [invalid_type p parsed_boolean (getParsedType data)]
      end
  | ZodAny => SafeParseSuccess data
  | ZodLiteral lit =>
      match data with
      | VString s =>
          if decide (s = lit) then SafeParseSuccess data
          else SafeParseError [invalid_literal p (VString lit) data]
      | _ => SafeParseError [invalid_literal p (VString lit) data]
      end
  | ZodArray element =>
      match data with
      | VArray items =>
          mergeArray (imap (λ i item, _parse element (p ++ [inr i]) item) items)
      | _ => SafeParseError [invalid_type p parsed_array (getParsedType data)]
      end
  | ZodRecord valueType =>
      match data with
      | VObject m =>
          mergeObjectSync
            ((λ kv, (kv.1, _parse valueType (p ++ [inl kv.1]) kv.2, false))
               <$> map_to_list m)
      | _ => SafeParseError [invalid_type p parsed_object (getParsedType data)]
      end
  | ZodObject shape =>
      match data with
      | VObject m =>
          mergeObjectSync
            ((fix fields (shape : list (string * ZodType)) :=
                match shape with
                | [] => []
                | (key, keyValidator) :: rest =>
                    (key, _parse keyValidator (p ++ [inl key]) (prop m key),
                     has_key m key) :: fields rest
                end) shape)
      | _ => SafeParseError [invalid_type p parsed_object (getParsedType data)]
      end
  | ZodOptional innerType =>
      match data with
      | VUndefined => SafeParseSuccess VUndefined
      | _ => _parse innerType p data
      end
  | ZodUnion options =>
      (fix attempt (options : list ZodType) (unionErrors : list ZodError) :=
         match options with
         | [] => SafeParseError [invalid_union p (rev unionErrors)]
         | option :: rest =>
             match _parse option p data with
             | SafeParseSuccess v => SafeParseSuccess v
             | SafeParseError e => attempt rest (e :: unionErrors)
             end
         end) options []
  end.

(** The two local loops of [_parse], as functions of their own. *)
Definition object_pairs (p : path) (m : gmap string value)
    (shape : list (string * ZodType)) : list (string * SafeParseReturnType * bool) :=
  (λ kt, (kt.1, _parse kt.2 (p ++ [inl kt.1]) (prop m kt.1), has_key m kt.1))
    <$> shape.

Fixpoint union_attempt (p : path) (data : value) (options : list ZodType)
    (unionErrors : list ZodError) : SafeParseReturnType :=
  match options with
  | [] => SafeParseError [invalid_union p (rev unionErrors)]
  | option :: rest =>
      match _parse option p data with
      | SafeParseSuccess v => SafeParseSuccess v
      | SafeParseError e => union_attempt p data rest (e :: unionErrors)
      end
  end.

(** [schema.safeParse(data)]: validation from the empty path. *)
Definition safeParse (t : ZodType) (data : value) : SafeParseReturnType :=
  _parse t [] data.

(** [a.merge(b)]: an object schema whose shape is [{ ...a.shape, ...b.shape }];
    a key of [b] replaces the same key of [a] in place, a new key is appended. *)
Fixpoint shape_set (shape : list (string * ZodType)) (key : string) (t : ZodType)
  : list (string * ZodType) :=
  match shape with
  | [] => [(key, t)]
  | (k, t') :: rest =>
      if decide (k = key) then (k, t) :: rest else (k, t') :: shape_set rest key t
  end.

Definition shape_of (t : ZodType) : list (string * ZodType) :=
  match t with ZodObject shape => shape | _ => [] end.

Definition merge (a b : ZodType) : ZodType :=
  ZodObject (fold_left (λ s kt, shape_set s kt.1 kt.2) (shape_of b) (shape_of a)).

Definition optional (t : ZodType) : ZodType := ZodOptional t.

Module z.
Definition number := ZodNumber.
Definition boolean := ZodBoolean.
Definition any := ZodAny.
Definition literal (lit : String.string) := ZodLiteral lit.
Definition array (element : ZodType) := ZodArray element.
Definition record (valueType : ZodType) := ZodRecord valueType.
Definition object (shape : list (String.string * ZodType)) := ZodObject shape.
Definition union (options : list ZodType) := ZodUnion options.
Definition string := ZodString.
End z.

(** ** The schemas of [index.ts] *)

Definition v1 : ZodType :=
  z.object
    [ ("name", z.string);
      ("description", z.string);
      ("personality", z.string);
      ("scenario", z.string);
      ("first_mes", z.string);
      ("mes_example", z.string) ].

Definition entry : ZodType :=
  z.object
    [ ("keys", z.array z.string);
      ("content", z.string);
      ("extensions", z.record z.any);
      ("enabled", z.boolean);
      ("insertion_order", z.number);
      ("case_sensitive", optional z.boolean);
      ("name", optional z.string);
      ("priority", optional z.number);
      ("id", optional z.number);
      ("comment", optional z.string);
      ("selective", optional z.boolean);
      ("secondary_keys", optional (z.array z.string));
      ("constant", optional z.boolean);
      ("position",
        optional (z.union [z.literal "before_char"; z.literal "after_char"])) ].

Definition book : ZodType :=
  z.object
    [ ("name", optional z.string);
      ("description", optional z.string);
      ("scan_depth", optional z.number);
      ("token_budget", optional z.number);
      ("recursive_scanning", optional z.boolean);
      ("extensions", z.record z.any);
      ("entries", z.array entry) ].

(** The schema [v2] gives its [data] field, [v1.merge(z.object({ ... }))]. *)
Definition v2_data : ZodType :=
  merge v1
    (z.object
       [ ("creator_notes", z.string);
         ("system_prompt", z.string);
         ("post_history_instructions", z.string);
         ("alternate_greetings", z.array z.string);
         ("character_book", optional book);
         ("tags", z.array z.string);
         ("creator", z.string);
         ("character_version", z.string);
         ("extensions", z.record z.any) ]).

Definition v2 : ZodType :=
  z.object
    [ ("spec", z.literal "chara_card_v2");
      ("spec_version", z.string);
      ("data", v2_data) ].

Definition backfilledV2 : ZodType := merge v1 v2.

(** ** The functions of [index.ts] *)

(** What [index.ts] can throw: the [ZodError] of a failed validation, or the
    [TypeError] of reading a property of [undefined] or [null]. *)
Variant thrown :=
| ThrowZodError (e : ZodError)
| ThrowTypeError.

(** [v.key] for the property names [index.ts] reads ([data] and the six V1
    names), none of which is an index or a built-in property. *)
Definition member (v : value) (key : string) : completion thrown value :=
  match v with
  | VUndefined | VNull => Throw ThrowTypeError
  | VObject m => Return (prop m key)
  | _ => Return VUndefined
  end.

Definition v1ToV2 (v1Card : value) : value :=
  VObject
    (set_props
       [ ("spec", VString "chara_card_v2");
         ("spec_version", VString "2.0");
         ("data",
           VObject
             (set_props
                [ ("creator_notes", VString "");
                  ("system_prompt", VString "");
                  ("post_history_instructions", VString "");
                  ("alternate_greetings", VArray []);
                  ("character_book", VUndefined);
                  ("tags", VArray []);
                  ("creator", VString "");
                  ("character_version", VString "");
                  ("extensions", VObject ∅) ]
                (spread v1Card))) ]
       ∅).

Definition parseToV2 (data : value) : completion thrown value :=
  let v2ParsingAttempt := safeParse v2 data in
  match v2ParsingAttempt with
  | SafeParseSuccess d => Return d
  | SafeParseError error =>
      let v1ParsingAttempt := safeParse v1 data in
      match v1ParsingAttempt with
      | SafeParseSuccess d => Return (v1ToV2 d)
      | SafeParseError _ => Throw (ThrowZodError error)
      end
  end.

Definition safeParseToV2 (data : value) : SafeParseReturnType :=
  let v2ParsingAttempt := safeParse v2 data in
  match v2ParsingAttempt with
  | SafeParseSuccess _ => v2ParsingAttempt
  | SafeParseError _ =>
      let v1ParsingAttempt := safeParse v1 data in
      match v1ParsingAttempt with
      | SafeParseSuccess d => safeParse v2 (v1ToV2 d)
      | SafeParseError _ => v2ParsingAttempt
      end
  end.

(** [v2Card.data.key] *)
Definition data_member (v2Card : value) (key : string) : completion thrown value :=
  bind (member v2Card "data") (λ data, member data key).

Definition backfillV2 (v2Card : value) : completion thrown value :=
  bind (data_member v2Card "name") (λ name,
  bind (data_member v2Card "description") (λ description,
  bind (data_member v2Card "personality") (λ personality,
  bind (data_member v2Card "scenario") (λ scenario,
  bind (data_member v2Card "first_mes") (λ first_mes,
  bind (data_member v2Card "mes_example") (λ mes_example,
  Return
    (VObject
       (set_props
          [ ("name", name);
            ("description", description);
            ("personality", personality);
            ("scenario", scenario);
            ("first_mes", first_mes);
            ("mes_example", mes_example) ]
          (spread v2Card))))))))).

Definition obsolescenceNotice : string :=
  "This is a V2 Character Card. Please update your frontend.".

Definition backfillV2WithObsolescenceNotice (v2Card : value) : value :=
  VObject
    (set_props
       [ ("name", VString obsolescenceNotice);
         ("description", VString obsolescenceNotice);
         ("personality", VString obsolescenceNotice);
         ("scenario", VString obsolescenceNotice);
         ("first_mes", VString obsolescenceNotice);
         ("mes_example", VString obsolescenceNotice) ]
       (spread v2Card)).

(** ** Notions the statements use *)

(** [v.key] as a total read: [undefined] where there is no such property. *)
Definition field (v : value) (key : string) : value :=
  match v with VObject m => prop m key | _ => VUndefined end.

(** Structural equality as the repository's tests check it with [toEqual]:
    arrays element by element, objects property by property where an absent
    property reads as [undefined], everything else by identity. *)
Inductive toEqual : value → value → Prop :=
| toEqual_same v : toEqual v v
| toEqual_array l1 l2 :
    Forall2 toEqual l1 l2 → toEqual (VArray l1) (VArray l2)
| toEqual_object m1 m2 :
    (∀ key, toEqual (prop m1 key) (prop m2 key)) →
    toEqual (VObject m1) (VObject m2).

(** A value has no field beyond a schema: at every object the schema
    describes, each key of the value is a key of the shape; inside arrays,
    records and optional fields likewise, and for a union in every option. *)
Fixpoint no_unknown_keys (t : ZodType) (data : value) {struct t} : bool :=
  match t, data with
  | ZodArray element, VArray items => forallb (no_unknown_keys element) items
  | ZodRecord valueType, VObject m =>
      forallb (λ kv, no_unknown_keys valueType kv.2) (map_to_list m)
  | ZodObject shape, VObject m =>
      forallb (λ kv, bool_decide (kv.1 ∈ shape.*1)) (map_to_list m)
      && (fix fields (shape : list (string * ZodType)) :=
            match shape with
            | [] => true
            | (key, keyValidator) :: rest =>
                no_unknown_keys keyValidator (prop m key) && fields rest
            end) shape
  | ZodOptional innerType, VUndefined => true
  | ZodOptional innerType, _ => no_unknown_keys innerType data
  | ZodUnion options, _ =>
      (fix all (options : list ZodType) :=
         match options with
         | [] => true
         | option :: rest => no_unknown_keys option data && all rest
         end) options
  | _, _ => true
  end.

(** No object of the value that the schema visits, be it read under an
    object schema or under a record, has a key [__proto__] of its own (as
    [JSON.parse] can create one). *)
Fixpoint no_proto_keys (t : ZodType) (data : value) {struct t} : bool :=
  match t, data with
  | ZodArray element, VArray items => forallb (no_proto_keys element) items
  | ZodRecord valueType, VObject m =>
      negb (has_key m "__proto__")
      && forallb (λ kv, no_proto_keys valueType kv.2) (map_to_list m)
  | ZodObject shape, VObject m =>
      negb (has_key m "__proto__")
      && (fix fields (shape : list (string * ZodType)) :=
            match shape with
            | [] => true
            | (key, keyValidator) :: rest =>
                no_proto_keys keyValidator (prop m key) && fields rest
            end) shape
  | ZodOptional innerType, VUndefined => true
  | ZodOptional innerType, _ => no_proto_keys innerType data
  | ZodUnion options, _ =>
      (fix all (options : list ZodType) :=
         match options with
         | [] => true
         | option :: rest => no_proto_keys option data && all rest
         end) options
  | _, _ => true
  end.

(** The six field names of a V1 card. *)
Definition v1_fields : list string :=
  ["name"; "description"; "personality"; "scenario"; "first_mes"; "mes_example"].

(** ** The cards of the repository's test suite *)

Definition object_literal (fields : list (string * value)) : value :=
  VObject (set_props fields ∅).

Definition v1Card : value :=
  object_literal
    [ ("name", VString "John");
      ("description", VString "{{char}} is a man.");
      ("personality", VString "cruel");
      ("scenario", VString "{{char}} hates {{user}}");
      ("first_mes", VString "Hi!");
      ("mes_example", VString "") ].

Definition v2CardFromV1 : value :=
  object_literal
    [ ("spec", VString "chara_card_v2");
      ("spec_version", VString "2.0");
      ("data",
        object_literal
          [ ("name", VString "John");
            ("description", VString "{{char}} is a man.");
            ("personality", VString "cruel");
            ("scenario", VString "{{char}} hates {{user}}");
            ("first_mes", VString "Hi!");
            ("mes_example", VString "");
            ("creator_notes", VString "");
            ("system_prompt", VString "");
            ("post_history_instructions", VString "");
            ("alternate_greetings", VArray []);
            ("character_book", VUndefined);
            ("tags", VArray []);
            ("creator", VString "");
            ("character_version", VString "");
            ("extensions", VObject ∅) ]) ].

(** The [data] of the test suite's [v2Card]; the word Sweetie is in double
    quotes there. *)
Definition v2Card_data : value :=
  object_literal
    [ ("name", VString "Mary");
      ("description", VString "{{char}} is a woman.");
      ("personality", VString "generous");
      ("scenario", VString "{{char}} loves {{user}}");
      ("first_mes", VString "Hello!");
      ("mes_example", VString "");
      ("creator_notes", VString "My first card.");
      ("system_prompt", VString "");
      ("post_history_instructions",
        VString "Your message must start with the word 'Sweetie'.");
      ("alternate_greetings", VArray [VString "Heeeey!"]);
      ("character_book", VUndefined);
      ("tags", VArray [VString "female"; VString "oc"]);
      ("creator", VString "darkpriest");
      ("character_version", VString "");
      ("extensions", VObject ∅) ].

Definition v2Card : value :=
  object_literal
    [ ("spec", VString "chara_card_v2");
      ("spec_version", VString "2.0");
      ("data", v2Card_data) ].

Definition v2CardWithBackfilledV1Fields : value :=
  object_literal
    [ ("name", VString "Mary");
      ("description", VString "{{char}} is a woman.");
      ("personality", VString "generous");
      ("scenario", VString "{{char}} loves {{user}}");
      ("first_mes", VString "Hello!");
      ("mes_example", VString "");
      ("spec", VString "chara_card_v2");
      ("spec_version", VString "2.0");
      ("data", v2Card_data) ].

Definition v2CardWithBackfilledObsolescenceNotice : value :=
  object_literal
    [ ("name", VString obsolescenceNotice);
      ("description", VString obsolescenceNotice);
      ("personality", VString obsolescenceNotice);
      ("scenario", VString obsolescenceNotice);
      ("first_mes", VString obsolescenceNotice);
      ("mes_example", VString obsolescenceNotice);
      ("spec", VString "chara_card_v2");
      ("spec_version", VString "2.0");
      ("data", v2Card_data) ].

Definition bookEntry : value :=
  object_literal
    [ ("keys", VArray [VString "king"]);
      ("content", VString "king=old");
      ("extensions", VObject ∅);
      ("enabled", VBoolean true);
      ("insertion_order", VNumber (S754_finite false 1 0)) ].

Definition testBook : value :=
  object_literal [ ("entries", VArray [bookEntry]); ("extensions", VObject ∅) ].

(** [{ ...v2Card, spec: 'x' }] *)
Definition v2CardWithSpecX : value :=
  VObject (set_props [ ("spec", VString "x") ] (spread v2Card)).

(** [{ ...v2CardWithBackfilledV1Fields, spec: 'x' }] *)
Definition v2CardWithBackfilledV1FieldsSpecX : value :=
  VObject (set_props [ ("spec", VString "x") ] (spread v2CardWithBackfilledV1Fields)).

(** [v2Card] with one more field, [avatar: 'none'], inside [data]. *)
Definition v2CardWithUnknownDataField : value :=
  object_literal
    [ ("spec", VString "chara_card_v2");
      ("spec_version", VString "2.0");
      ("data",
        VObject (set_props [ ("avatar", VString "none") ] (spread v2Card_data))) ].

(** An [extensions] map with one key of its own, [__proto__], as
    [JSON.parse] builds it from the text [{ __proto__: s }] with the key and
    the string quoted. *)
Definition extensionsWithProtoKey : value :=
  VObject (<["__proto__" := VString "s"]> ∅).

(** A book with no entries and that map as its [extensions]. *)
Definition bookWithProtoKey : value :=
  object_literal [ ("entries", VArray []); ("extensions", extensionsWithProtoKey) ].

(** [v2Card] with that map as [data.extensions]. *)
Definition v2CardWithProtoKey : value :=
  object_literal
    [ ("spec", VString "chara_card_v2");
      ("spec_version", VString "2.0");
      ("data",
        VObject (set_props [ ("extensions", extensionsWithProtoKey) ]
                   (spread v2Card_data))) ].

Arguments v2_data : simpl never.

(** ** Notions the further properties use *)

(** Two validation results agree but for the issues: both succeed with the
    same value, or both fail. *)
Definition same_outcome (r1 r2 : SafeParseReturnType) : Prop :=
  success r1 = success r2 ∧ result_value r1 = result_value r2.

(** Schemas whose output, on success, is the input itself. *)
Fixpoint identity_schema (t : ZodType) : bool :=
  match t with
  | ZodString | ZodNumber | ZodBoolean | ZodAny | ZodLiteral _ => true
  | ZodOptional innerType => identity_schema innerType
  | ZodUnion options =>
      (fix all (options : list ZodType) :=
         match options with
         | [] => true
         | option :: rest => identity_schema option && all rest
         end) options
  | _ => false
  end.

(** A schema as [index.ts] builds them: the keys of a shape are distinct (a
    shape is an object) and none is [__proto__]; unions are of schemas that
    return their input. *)
Fixpoint well_formed (t : ZodType) : bool :=
  match t with
  | ZodArray element => well_formed element
  | ZodRecord valueType => well_formed valueType
  | ZodObject shape =>
      bool_decide (NoDup shape.*1 ∧ "__proto__" ∉ shape.*1)
      && (fix fields (shape : list (string * ZodType)) :=
            match shape with
            | [] => true
            | (_, keyValidator) :: rest => well_formed keyValidator && fields rest
            end) shape
  | ZodOptional innerType => well_formed innerType
  | ZodUnion options => identity_schema (ZodUnion options)
  | _ => true
  end.

(** The five validators [index.ts] exports. *)
Definition validators : list ZodType := [v1; entry; book; v2; backfilledV2].

(** A failed validation reports at least one issue. *)
Definition has_issue (r : SafeParseReturnType) : Prop :=
  ∀ e, r = SafeParseError e → e ≠ [].

(** * Properties *)

(** ** Induction over schemas and the equations of [_parse] *)

Lemma ZodType_nested_ind (P : ZodType → Prop) :
  P ZodString → P ZodNumber → P ZodBoolean → P ZodAny →
  (∀ lit, P (ZodLiteral lit)) →
  (∀ element, P element → P (ZodArray element)) →
  (∀ valueType, P valueType → P (ZodRecord valueType)) →
  (∀ shape, Forall (λ kt, P kt.2) shape → P (ZodObject shape)) →
  (∀ innerType, P innerType → P (ZodOptional innerType)) →
  (∀ options, Forall P options → P (ZodUnion options)) →
  ∀ t, P t.
Proof.
  intros Hs Hn Hb Ha Hl Harr Hrec Hobj Hopt Hun.
  fix IH 1. intros [ | | | | lit | element | valueType | shape | innerType | options ].
  - exact Hs.
  - exact Hn.
  - exact Hb.
  - exact Ha.
  - apply Hl.
  - apply Harr, IH.
  - apply Hrec, IH.
  - apply Hobj. induction shape as [ | [key t] rest IHrest ]; constructor.
    + apply IH.
    + exact IHrest.
  - apply Hopt, IH.
  - apply Hun. induction options as [ | t rest IHrest ]; constructor.
    + apply IH.
    + exact IHrest.
Qed.

Lemma parse_object shape p m :
  _parse (ZodObject shape) p (VObject m) = mergeObjectSync (object_pairs p m shape).
Proof.
  simpl. f_equal. induction shape as [ | [key t] rest IH ]; simpl; [ done | by rewrite IH ].
Qed.

Lemma parse_union options p data :
  _parse (ZodUnion options) p data = union_attempt p data options [].
Proof.
  simpl. generalize (@nil ZodError). induction options as [ | t rest IH ]; intros errs; simpl; [ done | ].
  destruct (_parse t p data); [ done | apply IH ].
Qed.


Lemma final_object_snoc pairs pr :
  final_object (pairs ++ [pr]) = set_pair (final_object pairs) pr.
Proof. unfold final_object. by rewrite fold_left_app. Qed.

Lemma set_pair_lookup_ne final pr key :
  pr.1.1 ≠ key → set_pair final pr !! key = final !! key.
Proof.
  intros Hne. unfold set_pair. case_decide; [ done | ].
  destruct pr.1.2 as [ [] | ]; try destruct pr.2; by rewrite ?lookup_insert_ne.
Qed.

Lemma set_pair_prop final pr v :
  pr.1.2 = SafeParseSuccess v →
  set_pair final pr !! pr.1.1 = Some v
  ∨ (set_pair final pr = final
     ∧ (pr.1.1 = "__proto__" ∨ (v = VUndefined ∧ pr.2 = false))).
Proof.
  intros Hv. unfold set_pair. case_decide; [ right; auto | ]. rewrite Hv.
  destruct v; try (left; by rewrite lookup_insert_eq).
  destruct pr.2; [ left; by rewrite lookup_insert_eq | right; auto ].
Qed.

Lemma final_object_lookup_proto pairs : final_object pairs !! "__proto__" = None.
Proof.
  induction pairs as [ | pr pairs IH ] using rev_ind; [ apply lookup_empty | ].
  rewrite final_object_snoc. destruct (decide (pr.1.1 = "__proto__")) as [ Heq | Hne ].
  - unfold set_pair. by rewrite decide_True.
  - by rewrite set_pair_lookup_ne.
Qed.

Lemma final_object_lookup_notin pairs key :
  key ∉ pairs.*1.*1 → final_object pairs !! key = None.
Proof.
  induction pairs as [ | pr pairs IH ] using rev_ind; intros Hnotin.
  - apply lookup_empty.
  - rewrite !fmap_app in Hnotin. apply not_elem_of_app in Hnotin as [Hpairs Hpr].
    rewrite final_object_snoc, set_pair_lookup_ne; [ by apply IH | ].
    intros Heq. apply Hpr. rewrite <- Heq. apply list_elem_of_here.
Qed.

Lemma forallb_true_Forall {A} (f : A → bool) (l : list A) :
  forallb f l = true ↔ Forall (λ x, f x = true) l.
Proof.
  induction l as [ | x l IH ]; simpl.
  - split; [ constructor | done ].
  - rewrite andb_true_iff, Forall_cons, IH. done.
Qed.

Lemma mergeObjectSync_success pairs y :
  mergeObjectSync pairs = SafeParseSuccess y →
  Forall (λ pr, success pr.1.2 = true) pairs ∧ y = VObject (final_object pairs).
Proof.
  unfold mergeObjectSync. destruct (forallb _ pairs) eqn:Hall; [ | done ].
  intros [= <-]. split; [ | done ].
  by apply forallb_true_Forall in Hall.
Qed.

Lemma mergeObjectSync_success_iff pairs :
  success (mergeObjectSync pairs) = true ↔ Forall (λ pr, success pr.1.2 = true) pairs.
Proof.
  rewrite <- (forallb_true_Forall (λ pr, success pr.1.2)).
  unfold mergeObjectSync. by destruct (forallb _ pairs).
Qed.

Lemma final_object_toEqual pairs m :
  m !! "__proto__" = None →
  Forall (λ pr, ∃ v, pr.1.2 = SafeParseSuccess v ∧ toEqual v (prop m pr.1.1)) pairs →
  ∀ key, key ∈ pairs.*1.*1 → toEqual (prop (final_object pairs) key) (prop m key).
Proof.
  intros Hproto Hall key Hin.
  destruct (decide (key = "__proto__")) as [ -> | Hkey ].
  { unfold prop. rewrite final_object_lookup_proto, Hproto. constructor. }
  revert Hall Hin. induction pairs as [ | pr pairs IH ] using rev_ind; intros Hall Hin.
  - by apply elem_of_nil in Hin.
  - apply Forall_app in Hall as [Hpairs Hpr]. apply Forall_singleton in Hpr as (v & Hv & Heq).
    rewrite final_object_snoc.
    destruct (decide (pr.1.1 = key)) as [ <- | Hne ].
    + destruct (set_pair_prop (final_object pairs) pr v Hv)
        as [ Hset | (Hsame & [ Hp | (-> & _) ]) ]; [ | done | ].
      * unfold prop at 1. by rewrite Hset.
      * rewrite Hsame. destruct (decide (pr.1.1 ∈ pairs.*1.*1)) as [ Hold | Hnew ].
        -- by apply IH.
        -- unfold prop at 1. by rewrite final_object_lookup_notin.
    + unfold prop at 1. rewrite set_pair_lookup_ne by done. apply IH; [ done | ].
      rewrite !fmap_app in Hin. apply elem_of_app in Hin as [ Hin | Hin ]; [ done | ].
      simpl in Hin. apply list_elem_of_singleton in Hin. congruence.
Qed.

Lemma no_unknown_keys_object shape m :
  no_unknown_keys (ZodObject shape) (VObject m)
  = forallb (λ kv, bool_decide (kv.1 ∈ shape.*1)) (map_to_list m)
    && forallb (λ kt, no_unknown_keys kt.2 (prop m kt.1)) shape.
Proof.
  simpl. f_equal. induction shape as [ | [key t] rest IH ]; simpl; [ done | by rewrite IH ].
Qed.

Lemma no_unknown_keys_union options data :
  no_unknown_keys (ZodUnion options) data
  = forallb (λ t, no_unknown_keys t data) options.
Proof.
  destruct data; simpl;
    (induction options as [ | t rest IH ]; simpl; [ done | by rewrite IH ]).
Qed.

Lemma no_proto_keys_object shape m :
  no_proto_keys (ZodObject shape) (VObject m)
  = negb (has_key m "__proto__")
    && forallb (λ kt, no_proto_keys kt.2 (prop m kt.1)) shape.
Proof.
  simpl. f_equal. induction shape as [ | [key t] rest IH ]; simpl; [ done | by rewrite IH ].
Qed.

Lemma no_proto_keys_union options data :
  no_proto_keys (ZodUnion options) data
  = forallb (λ t, no_proto_keys t data) options.
Proof.
  destruct data; simpl;
    (induction options as [ | t rest IH ]; simpl; [ done | by rewrite IH ]).
Qed.

Lemma no_proto_key m : negb (has_key m "__proto__") = true → m !! "__proto__" = None.
Proof.
  unfold has_key. intros Hneg. apply negb_true_iff, bool_decide_eq_false in Hneg.
  destruct (m !! "__proto__"); [ | done ]. exfalso. apply Hneg. by eexists.
Qed.

Lemma mergeArray_success results y :
  mergeArray results = SafeParseSuccess y →
  Forall (λ r, success r = true) results ∧ y = VArray (result_value <$> results).
Proof.
  unfold mergeArray. destruct (forallb success results) eqn:Hall; [ | done ].
  intros [= <-]. split; [ | done ]. by apply forallb_true_Forall in Hall.
Qed.

Lemma success_result_value r :
  success r = true → r = SafeParseSuccess (result_value r).
Proof. by destruct r. Qed.

Lemma imap_toEqual (g : nat → value → SafeParseReturnType) items :
  (∀ i x y, x ∈ items → g i x = SafeParseSuccess y → toEqual y x) →
  Forall (λ r, success r = true) (imap g items) →
  Forall2 toEqual (result_value <$> imap g items) items.
Proof.
  revert g. induction items as [ | x items IH ]; intros g Hg Hall; simpl.
  - constructor.
  - simpl in Hall. apply Forall_cons in Hall as [Hx Hall]. constructor.
    + apply (Hg 0); [ apply list_elem_of_here | by apply success_result_value ].
    + apply IH; [ | done ]. intros i x' y Hin. apply Hg. by apply list_elem_of_further.
Qed.

Lemma forallb_elem_of {A} (f : A → bool) (l : list A) x :
  forallb f l = true → x ∈ l → f x = true.
Proof.
  intros Hall Hin. apply forallb_true_Forall in Hall.
  by apply (proj1 (Forall_forall _ _) Hall).
Qed.

Theorem parse_toEqual t :
  ∀ p data y,
    _parse t p data = SafeParseSuccess y →
    no_unknown_keys t data = true →
    no_proto_keys t data = true →
    toEqual y data.
Proof.
  induction t as
    [ | | | | lit | element IH | valueType IH | shape IH | innerType IH | options IH ]
    using ZodType_nested_ind; intros p data y Hparse Hkeys Hproto.
  - destruct data; simplify_eq/=. constructor.
  - destruct data as [ | | | [] | | | ]; simplify_eq/=; constructor.
  - destruct data; simplify_eq/=. constructor.
  - simplify_eq/=. constructor.
  - destruct data; simplify_eq/=. case_decide; simplify_eq. constructor.
  - destruct data as [ | | | | | items | ]; try done. simpl in Hparse, Hkeys, Hproto.
    apply mergeArray_success in Hparse as [Hall ->].
    apply toEqual_array, imap_toEqual; [ | done ].
    intros i x y Hin Hx. eapply IH; [ exact Hx | | ]; by eapply forallb_elem_of.
  - destruct data as [ | | | | | | m ]; try done. simpl in Hparse, Hkeys, Hproto.
    apply andb_true_iff in Hproto as [Hown%no_proto_key Hproto].
    apply mergeObjectSync_success in Hparse as [Hall ->].
    apply toEqual_object. intros key.
    set (pairs := _ <$> map_to_list m) in *.
    assert (Hkeys' : pairs.*1.*1 = (map_to_list m).*1).
    { unfold pairs. rewrite <- !list_fmap_compose. done. }
    unfold pairs in Hall. apply Forall_fmap in Hall.
    destruct (m !! key) as [v | ] eqn:Hkey.
    + apply final_object_toEqual; [ done | | ].
      * unfold pairs. apply Forall_fmap, Forall_forall. intros [k v'] Hin. simpl.
        apply (proj1 (Forall_forall _ _) Hall) in Hin as Hok. simpl in Hok.
        apply success_result_value in Hok. eexists. split; [ exact Hok | ].
        apply elem_of_map_to_list in Hin as Hk. unfold prop. rewrite Hk. simpl.
        eapply IH; [ exact Hok | | ].
        -- by apply (forallb_elem_of _ _ _ Hkeys) in Hin.
        -- by apply (forallb_elem_of _ _ _ Hproto) in Hin.
      * rewrite Hkeys'. apply list_elem_of_fmap. exists (key, v).
        split; [ done | by apply elem_of_map_to_list ].
    + unfold prop. rewrite Hkey, final_object_lookup_notin; [ constructor | ].
      rewrite Hkeys'. intros Hin. apply list_elem_of_fmap in Hin as ([k v] & -> & Hin).
      apply elem_of_map_to_list in Hin. simpl in Hkey. congruence.
  - destruct data as [ | | | | | | m ]; try done.
    rewrite parse_object in Hparse. rewrite no_unknown_keys_object in Hkeys.
    rewrite no_proto_keys_object in Hproto.
    apply andb_true_iff in Hkeys as [Hdom Hfields].
    apply andb_true_iff in Hproto as [Hown%no_proto_key Hproto].
    apply mergeObjectSync_success in Hparse as [Hall ->].
    apply toEqual_object. intros key.
    assert (Hkeys' : (object_pairs p m shape).*1.*1 = shape.*1).
    { unfold object_pairs. rewrite <- !list_fmap_compose. done. }
    destruct (decide (key ∈ shape.*1)) as [ Hin | Hnotin ].
    + apply final_object_toEqual; [ done | | by rewrite Hkeys' ].
      unfold object_pairs in *. apply Forall_fmap, Forall_forall. intros [k t] Hkt. simpl.
      apply Forall_fmap in Hall.
      apply (proj1 (Forall_forall _ _) Hall) in Hkt as Hok. simpl in Hok.
      apply success_result_value in Hok. eexists. split; [ exact Hok | ].
      pose proof (proj1 (Forall_forall _ _) IH _ Hkt) as IHt. simpl in IHt.
      eapply IHt; [ exact Hok | | ].
      * by apply (forallb_elem_of _ _ _ Hfields) in Hkt.
      * by apply (forallb_elem_of _ _ _ Hproto) in Hkt.
    + unfold prop at 1. rewrite final_object_lookup_notin by by rewrite Hkeys'.
      destruct (m !! key) as [v | ] eqn:Hkey.
      * apply elem_of_map_to_list in Hkey.
        apply (forallb_elem_of _ _ _ Hdom) in Hkey. simpl in Hkey.
        by apply bool_decide_eq_true in Hkey.
      * unfold prop. rewrite Hkey. constructor.
  - destruct data; simpl in Hparse, Hkeys, Hproto; simplify_eq; try constructor;
      by eapply IH.
  - rewrite parse_union in Hparse. rewrite no_unknown_keys_union in Hkeys.
    rewrite no_proto_keys_union in Hproto.
    revert Hparse. generalize (@nil ZodError).
    induction options as [ | t rest IHrest ]; intros errs Hparse; simpl in *; [ done | ].
    apply Forall_cons in IH as [IHt IH]. apply andb_true_iff in Hkeys as [Ht Hrest].
    apply andb_true_iff in Hproto as [Hpt' Hprest].
    destruct (_parse t p data) eqn:Hpt.
    + simplify_eq. by eapply IHt.
    + by eapply IHrest.
Qed.

(** ** The V1 and V2 validators *)

Lemma set_pair_alwaysSet final key v :
  key ≠ "__proto__" →
  set_pair final (key, SafeParseSuccess v, true) = <[key := v]> final.
Proof. intros Hkey. unfold set_pair. cbn [fst snd]. rewrite decide_False by done. by destruct v. Qed.

Lemma prop_inv m key v : prop m key = v → v ≠ VUndefined → m !! key = Some v.
Proof. unfold prop. destruct (m !! key); simpl; congruence. Qed.

Lemma has_key_Some m key v : m !! key = Some v → has_key m key = true.
Proof. intros H. unfold has_key. apply bool_decide_eq_true. by exists v. Qed.

Lemma parse_string_success p data :
  success (_parse ZodString p data) = true → ∃ s, data = VString s.
Proof. destruct data; try done. by eexists. Qed.

Lemma parse_string p s : _parse ZodString p (VString s) = SafeParseSuccess (VString s).
Proof. done. Qed.

Lemma parse_literal_success lit p data :
  success (_parse (ZodLiteral lit) p data) = true → data = VString lit.
Proof. destruct data; simpl; try done. case_decide; [ by subst | done ]. Qed.

Lemma parse_literal_same lit p :
  _parse (ZodLiteral lit) p (VString lit) = SafeParseSuccess (VString lit).
Proof. simpl. by case_decide. Qed.

Lemma parse_literal_failure lit p data :
  data ≠ VString lit → success (_parse (ZodLiteral lit) p data) = false.
Proof. destruct data; simpl; try done. case_decide; [ by subst | done ]. Qed.

Lemma parse_object_success_inv shape p data :
  success (_parse (ZodObject shape) p data) = true → ∃ m, data = VObject m.
Proof. destruct data; try done. by eexists. Qed.

(** What a successful validation reads and writes under a schema of three
    fields: a literal [spec], a string [spec_version] and an object [data]. *)
Lemma envelope_success_inv lit shape p data y :
  _parse (ZodObject [ ("spec", ZodLiteral lit);
                      ("spec_version", ZodString);
                      ("data", ZodObject shape) ]) p data = SafeParseSuccess y →
  ∃ m spec_version d d',
    data = VObject m
    ∧ m !! "spec" = Some (VString lit)
    ∧ m !! "spec_version" = Some (VString spec_version)
    ∧ m !! "data" = Some (VObject d)
    ∧ _parse (ZodObject shape) (p ++ [inl "data"]) (VObject d) = SafeParseSuccess d'
    ∧ y = VObject (<["data" := d']> (<["spec_version" := VString spec_version]>
                   (<["spec" := VString lit]> ∅))).
Proof.
  intros Hparse. destruct data as [ | | | | | | m ]; try done.
  rewrite parse_object in Hparse.
  apply mergeObjectSync_success in Hparse as [Hall ->].
  cbn [object_pairs fmap list_fmap fst snd] in *.
  apply Forall_cons in Hall as [Hspec Hall]. apply Forall_cons in Hall as [Hversion Hall].
  apply Forall_cons in Hall as [Hdata _]. cbn [fst snd] in *.
  apply parse_literal_success in Hspec.
  apply parse_string_success in Hversion as [spec_version Hversion].
  destruct (parse_object_success_inv _ _ _ Hdata) as [d Hd].
  rewrite Hspec, Hversion, Hd. rewrite Hd in Hdata.
  destruct (_parse (ZodObject shape) (p ++ [inl "data"]) (VObject d))
    as [ d' | e ] eqn:Hd'; [ clear Hdata | discriminate Hdata ].
  apply prop_inv in Hspec; [ | discriminate ].
  apply prop_inv in Hversion; [ | discriminate ].
  apply prop_inv in Hd; [ | discriminate ].
  rewrite (has_key_Some _ _ _ Hspec), (has_key_Some _ _ _ Hversion), (has_key_Some _ _ _ Hd).
  exists m, spec_version, d, d'.
  split; [ reflexivity | ]. split; [ exact Hspec | ]. split; [ exact Hversion | ].
  split; [ exact Hd | ]. split; [ exact Hd' | ].
  unfold final_object. cbn [fold_left].
  by rewrite parse_literal_same, parse_string, !set_pair_alwaysSet by done.
Qed.

Lemma v2_success_inv data y :
  safeParse v2 data = SafeParseSuccess y →
  ∃ m spec_version d d',
    data = VObject m
    ∧ m !! "spec" = Some (VString "chara_card_v2")
    ∧ m !! "spec_version" = Some (VString spec_version)
    ∧ m !! "data" = Some (VObject d)
    ∧ _parse v2_data [inl "data"] (VObject d) = SafeParseSuccess d'
    ∧ y = VObject (<["data" := d']> (<["spec_version" := VString spec_version]>
                   (<["spec" := VString "chara_card_v2"]> ∅))).
Proof. exact (envelope_success_inv "chara_card_v2" (shape_of v2_data) [] data y). Qed.

Lemma v1_success_inv data c :
  safeParse v1 data = SafeParseSuccess c →
  ∃ m name description personality scenario first_mes mes_example,
    data = VObject m
    ∧ m !! "name" = Some (VString name)
    ∧ m !! "description" = Some (VString description)
    ∧ m !! "personality" = Some (VString personality)
    ∧ m !! "scenario" = Some (VString scenario)
    ∧ m !! "first_mes" = Some (VString first_mes)
    ∧ m !! "mes_example" = Some (VString mes_example)
    ∧ c = object_literal
            [ ("name", VString name);
              ("description", VString description);
              ("personality", VString personality);
              ("scenario", VString scenario);
              ("first_mes", VString first_mes);
              ("mes_example", VString mes_example) ].
Proof.
  unfold safeParse, v1, z.object. intros Hparse.
  destruct data as [ | | | | | | m ]; try done.
  rewrite parse_object in Hparse.
  apply mergeObjectSync_success in Hparse as [Hall ->].
  cbn [object_pairs fmap list_fmap fst snd app] in *.
  repeat (apply Forall_cons in Hall as [?%parse_string_success Hall]).
  cbn [fst snd] in *. destruct_and?. 
  repeat match goal with H : ∃ s, prop m _ = VString s |- _ => destruct H as [? H] end.
  repeat match goal with
         | H : prop m ?k = VString ?s |- _ =>
             rewrite H; apply prop_inv in H; [ rewrite (has_key_Some _ _ _ H) | done ]
         end.
  do 7 eexists. repeat (split; [ done | ]).
  unfold final_object, object_literal, set_props. cbn [fold_left fst snd].
  rewrite !parse_string. by rewrite !set_pair_alwaysSet by done.
Qed.

Lemma v2_accepts_upgrade name description personality scenario first_mes mes_example :
  let c := object_literal
            [ ("name", VString name);
              ("description", VString description);
              ("personality", VString personality);
              ("scenario", VString scenario);
              ("first_mes", VString first_mes);
              ("mes_example", VString mes_example) ] in
  safeParse v2 (v1ToV2 c) = SafeParseSuccess (v1ToV2 c).
Proof. vm_compute. reflexivity. Qed.

Lemma safeParse_v1ToV2 data c :
  safeParse v1 data = SafeParseSuccess c →
  safeParse v2 (v1ToV2 c) = SafeParseSuccess (v1ToV2 c).
Proof.
  intros (m & ? & ? & ? & ? & ? & ? & _ & _ & _ & _ & _ & _ & _ & ->)%v1_success_inv.
  apply v2_accepts_upgrade.
Qed.

(** C8.  The throwing and the non-throwing parser agree on every input:
    [parseToV2] returns [v] exactly when [safeParseToV2] returns the
    success carrying [v] (equal, hence structurally equal), and throws [e]
    exactly when [safeParseToV2] returns the failure carrying [e]; it throws
    nothing else. *)
Theorem parsers_agree data :
  (∀ v, parseToV2 data = Return v ↔ safeParseToV2 data = SafeParseSuccess v)
  ∧ (∀ e, parseToV2 data = Throw (ThrowZodError e) ↔ safeParseToV2 data = SafeParseError e)
  ∧ parseToV2 data ≠ Throw ThrowTypeError.
Proof.
  unfold parseToV2, safeParseToV2.
  destruct (safeParse v2 data) as [d | error] eqn:Hv2.
  - repeat split; try done; intros; simplify_eq; done.
  - destruct (safeParse v1 data) as [c | error1] eqn:Hv1.
    + rewrite (safeParse_v1ToV2 _ _ Hv1). repeat split; try done; intros; simplify_eq; done.
    + repeat split; try done; intros; simplify_eq; done.
Qed.

Lemma lookup_set_props_notin fields base key :
  key ∉ fields.*1 → set_props fields base !! key = base !! key.
Proof.
  revert base. induction fields as [ | [k v] fields IH ]; intros base Hnotin; [ done | ].
  apply not_elem_of_cons in Hnotin as [Hne Hnotin].
  unfold set_props in *. simpl. rewrite IH by done. by apply lookup_insert_ne.
Qed.

Lemma parse_object_ext shape p m1 m2 :
  (∀ key, key ∈ shape.*1 → m1 !! key = m2 !! key) →
  _parse (ZodObject shape) p (VObject m1) = _parse (ZodObject shape) p (VObject m2).
Proof.
  intros Hagree. rewrite !parse_object. f_equal. unfold object_pairs.
  apply list_fmap_ext. intros i [key t] Hi. simpl.
  assert (Hkey : m1 !! key = m2 !! key).
  { apply Hagree, list_elem_of_fmap. exists (key, t). split; [ done | ].
    by eapply list_elem_of_lookup_2. }
  unfold prop, has_key. by rewrite Hkey.
Qed.

Lemma toEqual_object_inv m1 m2 :
  toEqual (VObject m1) (VObject m2) → ∀ key, toEqual (prop m1 key) (prop m2 key).
Proof. inversion 1; subst; [ constructor | done ]. Qed.

Lemma toEqual_string_inv s v : toEqual (VString s) v → v = VString s.
Proof. by inversion 1. Qed.

Lemma toEqual_undefined_inv v : toEqual VUndefined v → v = VUndefined.
Proof. by inversion 1. Qed.

Ltac solve_lookup :=
  unfold object_literal, set_props; cbn [fold_left fst snd field];
  repeat (progress
            (unfold prop;
             repeat first [ rewrite lookup_insert_eq
                          | rewrite lookup_insert_ne by done ];
             rewrite ?lookup_empty; cbn [from_option id field]));
  try done.

Lemma prop_Some m key v : m !! key = Some v → prop m key = v.
Proof. intros H. unfold prop. by rewrite H. Qed.

(** C5.  For every valid V2 document [d], [backfillV2 d] returns a document
    whose six top-level V1 fields equal the corresponding fields of
    [d.data], and whose [data] is [d.data], unchanged. *)
Theorem backfillV2_copies d :
  success (safeParse v2 d) = true →
  ∃ b, backfillV2 d = Return b
       ∧ (∀ key, key ∈ v1_fields → field b key = field (field d "data") key)
       ∧ field b "data" = field d "data".
Proof.
  intros Hvalid. apply success_result_value in Hvalid.
  apply v2_success_inv in Hvalid as (m & sv & md & d' & -> & _ & _ & Hdata & _).
  apply prop_Some in Hdata.
  unfold backfillV2, data_member. simpl. rewrite !Hdata. simpl.
  eexists. split; [ done | ]. split.
  - intros key Hkey. unfold v1_fields in Hkey. simpl.
    repeat (apply elem_of_cons in Hkey as [ -> | Hkey ]; [ by solve_lookup | ]).
    by apply elem_of_nil in Hkey.
  - simpl. rewrite <- Hdata. by solve_lookup.
Qed.

Lemma backfillV2_copies_witness :
  success (safeParse v2 v2Card) = true
  ∧ ∃ b, backfillV2 v2Card = Return b
         ∧ (∀ key, key ∈ v1_fields → field b key = field (field v2Card "data") key)
         ∧ field b "data" = field v2Card "data".
Proof.
  split; [ vm_compute; reflexivity | ].
  apply (backfillV2_copies v2Card). vm_compute. reflexivity.
Defined.


(** C6.  For every valid V2 document [d], all six top-level V1 fields of
    [backfillV2WithObsolescenceNotice d] are the fixed notice string,
    whatever [d.data] holds, and its [data] is [d.data], unchanged. *)
Theorem backfillV2WithObsolescenceNotice_overwrites d :
  success (safeParse v2 d) = true →
  (∀ key, key ∈ v1_fields →
     field (backfillV2WithObsolescenceNotice d) key
     = VString "This is a V2 Character Card. Please update your frontend.")
  ∧ field (backfillV2WithObsolescenceNotice d) "data" = field d "data".
Proof.
  intros Hvalid. apply success_result_value in Hvalid.
  apply v2_success_inv in Hvalid as (m & sv & md & d' & -> & _ & _ & Hdata & _).
  unfold backfillV2WithObsolescenceNotice. simpl. split.
  - intros key Hkey. unfold v1_fields in Hkey.
    repeat (apply elem_of_cons in Hkey as [ -> | Hkey ]; [ by solve_lookup | ]).
    by apply elem_of_nil in Hkey.
  - by solve_lookup.
Qed.

Lemma backfillV2WithObsolescenceNotice_overwrites_witness :
  success (safeParse v2 v2Card) = true
  ∧ (∀ key, key ∈ v1_fields →
       field (backfillV2WithObsolescenceNotice v2Card) key
       = VString "This is a V2 Character Card. Please update your frontend.")
  ∧ field (backfillV2WithObsolescenceNotice v2Card) "data" = field v2Card "data".
Proof.
  split; [ vm_compute; reflexivity | ].
  apply (backfillV2WithObsolescenceNotice_overwrites v2Card). vm_compute. reflexivity.
Defined.


(** C4.  When both the V2 and the V1 validation of an input fail,
    [parseToV2] throws the error of the V2 attempt, not the V1 one, and
    [safeParseToV2] returns the failure carrying that same error. *)
Theorem double_failure_reports_v2_error data e2 e1 :
  safeParse v2 data = SafeParseError e2 →
  safeParse v1 data = SafeParseError e1 →
  parseToV2 data = Throw (ThrowZodError e2)
  ∧ safeParseToV2 data = SafeParseError e2.
Proof. intros Hv2 Hv1. unfold parseToV2, safeParseToV2. by rewrite Hv2, Hv1. Qed.

Lemma double_failure_reports_v2_error_witness :
  ∃ e2 e1,
    safeParse v2 (VObject ∅) = SafeParseError e2
    ∧ safeParse v1 (VObject ∅) = SafeParseError e1
    ∧ e2 ≠ e1
    ∧ parseToV2 (VObject ∅) = Throw (ThrowZodError e2)
    ∧ safeParseToV2 (VObject ∅) = SafeParseError e2.
Proof.
  eexists _, _. split; [ vm_compute; reflexivity | ].
  split; [ vm_compute; reflexivity | ]. split; [ discriminate | ].
  eapply (double_failure_reports_v2_error (VObject ∅)); vm_compute; reflexivity.
Defined.


(** C3.  For every valid V1 document [d], [v1ToV2 d] is a document whose
    [spec] is ['chara_card_v2'], whose [spec_version] is ["2.0"], whose
    [data] holds the six V1 fields of [d] unchanged, the empty string in the
    five V2-only string fields, empty lists in [alternate_greetings] and
    [tags], an empty map in [extensions], and no [character_book]. *)
Theorem v1ToV2_shape d :
  success (safeParse v1 d) = true →
  let card := v1ToV2 d in
  let data := field card "data" in
  field card "spec" = VString "chara_card_v2"
  ∧ field card "spec_version" = VString "2.0"
  ∧ (∀ key, key ∈ v1_fields → field data key = field d key)
  ∧ field data "creator_notes" = VString ""
  ∧ field data "system_prompt" = VString ""
  ∧ field data "post_history_instructions" = VString ""
  ∧ field data "creator" = VString ""
  ∧ field data "character_version" = VString ""
  ∧ field data "alternate_greetings" = VArray []
  ∧ field data "tags" = VArray []
  ∧ field data "extensions" = VObject ∅
  ∧ field data "character_book" = VUndefined.
Proof.
  intros Hvalid. apply success_result_value in Hvalid.
  apply v1_success_inv in Hvalid as (m & ? & ? & ? & ? & ? & ? & -> & _).
  simpl. repeat split; try by solve_lookup.
  intros key Hkey. unfold v1_fields in Hkey.
  repeat (apply elem_of_cons in Hkey as [ -> | Hkey ]; [ by solve_lookup | ]).
  by apply elem_of_nil in Hkey.
Qed.

Lemma v1ToV2_shape_witness :
  success (safeParse v1 v1Card) = true
  ∧ field (v1ToV2 v1Card) "spec" = VString "chara_card_v2"
  ∧ field (field (v1ToV2 v1Card) "data") "name" = VString "John"
  ∧ field (field (v1ToV2 v1Card) "data") "character_book" = VUndefined.
Proof.
  split; [ vm_compute; reflexivity | ].
  assert (Hvalid : success (safeParse v1 v1Card) = true) by (vm_compute; reflexivity).
  destruct (v1ToV2_shape v1Card Hvalid)
    as (Hspec & _ & Hsix & _ & _ & _ & _ & _ & _ & _ & _ & Hbook).
  split; [ exact Hspec | ]. split; [ | exact Hbook ].
  rewrite (Hsix "name"); [ vm_compute; reflexivity | ].
  vm_compute. apply list_elem_of_here.
Defined.


Lemma v2_roundtrip d y :
  safeParse v2 d = SafeParseSuccess y →
  no_unknown_keys v2 d = true → no_proto_keys v2 d = true → toEqual y d.
Proof. apply parse_toEqual. Qed.

Lemma v2_keys_only m1 m2 :
  m1 !! "spec" = m2 !! "spec" →
  m1 !! "spec_version" = m2 !! "spec_version" →
  m1 !! "data" = m2 !! "data" →
  safeParse v2 (VObject m1) = safeParse v2 (VObject m2).
Proof.
  intros Hspec Hversion Hdata. apply parse_object_ext. intros key Hkey.
  cbn [fmap list_fmap fst] in Hkey.
  repeat (apply elem_of_cons in Hkey as [ -> | Hkey ]; [ done | ]).
  by apply elem_of_nil in Hkey.
Qed.

(** C1, as the code has it.  For every input the v2 validator accepts,
    with or without unknown top-level fields, validation succeeds and
    [parseToV2] returns the validator's output; that output has no top-level
    field but [spec], [spec_version] and [data]: the first two are the
    input's, [data] is the validated [data] of the input, and every unknown
    field is gone. *)
Theorem v2_strips_unknown_fields data y :
  safeParse v2 data = SafeParseSuccess y →
  parseToV2 data = Return y
  ∧ (∀ key, key ∉ ["spec"; "spec_version"; "data"] → spread y !! key = None)
  ∧ field y "spec" = field data "spec"
  ∧ field y "spec_version" = field data "spec_version"
  ∧ _parse v2_data [inl "data"] (field data "data") = SafeParseSuccess (field y "data").
Proof.
  intros Hparse. split; [ unfold parseToV2; by rewrite Hparse | ].
  apply v2_success_inv in Hparse
    as (m & sv & md & d' & -> & Hspec & Hversion & Hdata & Hd' & ->).
  apply prop_Some in Hspec, Hversion, Hdata. cbn [field spread].
  rewrite Hspec, Hversion, Hdata. split; [ | split; [ | split ] ].
  - intros key Hkey. apply not_elem_of_cons in Hkey as [? Hkey].
    apply not_elem_of_cons in Hkey as [? Hkey]. apply not_elem_of_cons in Hkey as [? _].
    by rewrite !lookup_insert_ne.
  - by solve_lookup.
  - by solve_lookup.
  - rewrite Hd'; f_equal; solve_lookup.
Qed.

Lemma v2_strips_unknown_fields_witness :
  safeParse v2 v2CardWithBackfilledV1Fields = SafeParseSuccess v2Card
  ∧ parseToV2 v2CardWithBackfilledV1Fields = Return v2Card
  ∧ spread v2Card !! "name" = None.
Proof.
  assert (Hparse : safeParse v2 v2CardWithBackfilledV1Fields = SafeParseSuccess v2Card)
    by (vm_compute; reflexivity).
  destruct (v2_strips_unknown_fields _ _ Hparse) as (Hreturn & Hkeys & _).
  split; [ exact Hparse | ]. split; [ exact Hreturn | ].
  apply Hkeys. intros Hin.
  repeat (apply elem_of_cons in Hin as [ Hin | Hin ]; [ discriminate | ]).
  by apply elem_of_nil in Hin.
Defined.


(** C1 as stated fails: the v2 validator accepts the test suite's backfilled
    card, whose six top-level V1 fields are unknown to the V2 schema, and
    its output, which [parseToV2] returns, is [v2Card]: the field [name] is
    gone and the output is not structurally equal to the input. *)
Lemma v2_drops_backfilled_fields :
  safeParse v2 v2CardWithBackfilledV1Fields = SafeParseSuccess v2Card
  ∧ parseToV2 v2CardWithBackfilledV1Fields = Return v2Card
  ∧ field v2CardWithBackfilledV1Fields "name" = VString "Mary"
  ∧ field v2Card "name" = VUndefined
  ∧ ¬ toEqual v2Card v2CardWithBackfilledV1Fields.
Proof.
  split; [ vm_compute; reflexivity | ]. split; [ vm_compute; reflexivity | ].
  split; [ vm_compute; reflexivity | ]. split; [ vm_compute; reflexivity | ].
  intros Heq. apply toEqual_object_inv with (key := "name") in Heq.
  apply toEqual_undefined_inv in Heq. vm_compute in Heq. discriminate.
Qed.

(** C2 as stated fails: a card that satisfies the v2 schema and has one
    more field, [avatar], in its [data] is parsed to [v2Card], which is not
    structurally equal to it. *)
Lemma parseToV2_drops_unknown_data_field :
  success (safeParse v2 v2CardWithUnknownDataField) = true
  ∧ parseToV2 v2CardWithUnknownDataField = Return v2Card
  ∧ ¬ toEqual v2Card v2CardWithUnknownDataField.
Proof.
  split; [ vm_compute; reflexivity | ]. split; [ vm_compute; reflexivity | ].
  intros Heq. apply toEqual_object_inv with (key := "data") in Heq.
  assert (Hl : prop (set_props
                       [ ("spec", VString "chara_card_v2");
                         ("spec_version", VString "2.0");
                         ("data", v2Card_data) ] ∅) "data" = v2Card_data)
    by (vm_compute; reflexivity).
  rewrite Hl in Heq. clear Hl.
  assert (Hr : prop (set_props
                       [ ("spec", VString "chara_card_v2");
                         ("spec_version", VString "2.0");
                         ("data", VObject (set_props [ ("avatar", VString "none") ]
                                             (spread v2Card_data))) ] ∅) "data"
               = VObject (set_props [ ("avatar", VString "none") ] (spread v2Card_data)))
    by (vm_compute; reflexivity).
  rewrite Hr in Heq. clear Hr.
  apply toEqual_object_inv with (key := "avatar") in Heq.
  apply toEqual_undefined_inv in Heq. vm_compute in Heq. discriminate.
Qed.

(** C2, as the code has it.  For every document [d] that satisfies the v2
    schema, has no field beyond it and has no key [__proto__] (in the card,
    its [data], its book and entries, or any [extensions] map),
    [parseToV2 d] succeeds and its result is structurally equal to [d]. *)
Theorem parseToV2_roundtrip d :
  success (safeParse v2 d) = true →
  no_unknown_keys v2 d = true →
  no_proto_keys v2 d = true →
  ∃ r, parseToV2 d = Return r ∧ toEqual r d.
Proof.
  intros Hvalid Hkeys Hproto. apply success_result_value in Hvalid.
  eexists. split; [ unfold parseToV2; by rewrite Hvalid | ].
  by eapply v2_roundtrip.
Qed.

Lemma parseToV2_roundtrip_witness :
  success (safeParse v2 v2Card) = true
  ∧ no_unknown_keys v2 v2Card = true
  ∧ no_proto_keys v2 v2Card = true
  ∧ ∃ r, parseToV2 v2Card = Return r ∧ toEqual r v2Card.
Proof.
  split; [ vm_compute; reflexivity | ]. split; [ vm_compute; reflexivity | ].
  split; [ vm_compute; reflexivity | ].
  apply (parseToV2_roundtrip v2Card); vm_compute; reflexivity.
Defined.

(** The six V1 fields of the [data] of a valid V2 card are strings. *)
Lemma v2_data_strings p md d' :
  _parse v2_data p (VObject md) = SafeParseSuccess d' →
  ∀ key, key ∈ v1_fields → ∃ s, md !! key = Some (VString s).
Proof.
  assert (Hshape : v2_data
                   = ZodObject (("name", ZodString) :: ("description", ZodString)
                                :: ("personality", ZodString) :: ("scenario", ZodString)
                                :: ("first_mes", ZodString) :: ("mes_example", ZodString)
                                :: drop 6 (shape_of v2_data))) by reflexivity.
  rewrite Hshape, parse_object. clear Hshape.
  intros [Hall _]%mergeObjectSync_success. unfold object_pairs in Hall.
  rewrite !fmap_cons in Hall. cbn [fst snd] in Hall.
  do 6 (apply Forall_cons in Hall as [?%parse_string_success Hall]). clear Hall.
  intros key Hkey. unfold v1_fields in Hkey.
  repeat (apply elem_of_cons in Hkey as [ -> | Hkey ];
          [ match goal with
            | H : ∃ s, prop md ?k = VString s |- ∃ s, md !! ?k = _ =>
                destruct H as [s H]; exists s; by apply prop_inv
            end | ]).
  by apply elem_of_nil in Hkey.
Qed.

(** C10 as stated fails: a card that satisfies the v2 schema and has no
    field beyond it, whose [data.extensions] has a key [__proto__] of its
    own, is backfilled and parsed again to a card whose [data.extensions] is
    empty, which is not structurally equal to it. *)
Lemma parseToV2_backfillV2_loses_proto_key :
  success (safeParse v2 v2CardWithProtoKey) = true
  ∧ no_unknown_keys v2 v2CardWithProtoKey = true
  ∧ ∃ b r, backfillV2 v2CardWithProtoKey = Return b
           ∧ parseToV2 b = Return r
           ∧ field (field r "data") "extensions" = VObject ∅
           ∧ ¬ toEqual r v2CardWithProtoKey.
Proof.
  split; [ vm_compute; reflexivity | ]. split; [ vm_compute; reflexivity | ].
  eexists _, _. split; [ vm_compute; reflexivity | ].
  split; [ vm_compute; reflexivity | ]. split; [ vm_compute; reflexivity | ].
  intros Heq. apply toEqual_object_inv with (key := "data") in Heq.
  vm_compute in Heq.
  apply toEqual_object_inv with (key := "extensions") in Heq.
  vm_compute in Heq.
  apply toEqual_object_inv with (key := "__proto__") in Heq.
  apply toEqual_undefined_inv in Heq. vm_compute in Heq. discriminate.
Qed.

(** C10, as the code has it.  For every V2 document [d] whose fields are
    exactly those of the V2 schema, with no key [__proto__] in the card, its
    [data], its book and entries, or any [extensions] map, [backfillV2 d]
    returns a card
    [b] that carries the six V1 fields of [d.data], strings, at top level,
    and [parseToV2 b] succeeds with a result that no longer has them and is
    structurally equal to [d]: validation removes what [backfillV2] added. *)
Theorem parseToV2_backfillV2 d :
  success (safeParse v2 d) = true →
  no_unknown_keys v2 d = true →
  no_proto_keys v2 d = true →
  ∃ b r, backfillV2 d = Return b
         ∧ (∀ key, key ∈ v1_fields →
              field d key = VUndefined
              ∧ field b key = field (field d "data") key
              ∧ ∃ s, field b key = VString s)
         ∧ parseToV2 b = Return r
         ∧ toEqual r d
         ∧ ∀ key, key ∈ v1_fields → field r key = VUndefined.
Proof.
  intros Hvalid Hkeys Hproto. apply success_result_value in Hvalid.
  destruct (v2_success_inv _ _ Hvalid)
    as (m & sv & md & d' & -> & _ & _ & Hdata & Hd' & Hy).
  pose proof (v2_data_strings _ _ _ Hd') as Hstrings.
  apply prop_Some in Hdata.
  unfold backfillV2, data_member. simpl. rewrite !Hdata. simpl.
  eexists _, (result_value (safeParse v2 (VObject m))). split; [ done | ].
  assert (Hsame : safeParse v2
                    (VObject
                       (<["mes_example":=prop md "mes_example"]>
                          (<["first_mes":=prop md "first_mes"]>
                             (<["scenario":=prop md "scenario"]>
                                (<["personality":=prop md "personality"]>
                                   (<["description":=prop md "description"]>
                                      (<["name":=prop md "name"]> m)))))))
                  = safeParse v2 (VObject m)).
  { apply v2_keys_only; by rewrite !lookup_insert_ne. }
  split.
  { intros key Hkey. destruct (Hstrings key Hkey) as [s Hs].
    assert (Hnew : m !! key = None).
    { destruct (m !! key) as [ v | ] eqn:Hm; [ | done ]. exfalso.
      unfold safeParse, v2, z.object in Hkeys. rewrite no_unknown_keys_object in Hkeys.
      apply andb_true_iff in Hkeys as [Hdom _].
      apply elem_of_map_to_list in Hm. apply (forallb_elem_of _ _ _ Hdom) in Hm.
      apply bool_decide_eq_true in Hm. cbn [fmap list_fmap fst] in Hm.
      unfold v1_fields in Hkey.
      repeat (apply elem_of_cons in Hkey as [ -> | Hkey ];
              [ repeat (apply elem_of_cons in Hm as [ Hm | Hm ]; [ discriminate | ]);
                by apply elem_of_nil in Hm | ]).
      by apply elem_of_nil in Hkey. }
    split; [ unfold prop; by rewrite Hnew | ].
    rewrite (prop_Some _ _ _ Hs). unfold v1_fields in Hkey.
    repeat (apply elem_of_cons in Hkey as [ -> | Hkey ];
            [ split; [ | exists s ]; rewrite <- (prop_Some _ _ _ Hs); by solve_lookup | ]).
    by apply elem_of_nil in Hkey. }
  split; [ unfold parseToV2; by rewrite Hsame, Hvalid | ].
  split; [ by eapply v2_roundtrip | ].
  rewrite Hy. intros key Hkey. unfold v1_fields in Hkey.
  repeat (apply elem_of_cons in Hkey as [ -> | Hkey ]; [ by solve_lookup | ]).
  by apply elem_of_nil in Hkey.
Qed.

Lemma parseToV2_backfillV2_witness :
  success (safeParse v2 v2Card) = true
  ∧ no_unknown_keys v2 v2Card = true
  ∧ no_proto_keys v2 v2Card = true
  ∧ ∃ b r, backfillV2 v2Card = Return b
           ∧ (∀ key, key ∈ v1_fields →
                field v2Card key = VUndefined
                ∧ field b key = field (field v2Card "data") key
                ∧ ∃ s, field b key = VString s)
           ∧ parseToV2 b = Return r
           ∧ toEqual r v2Card
           ∧ ∀ key, key ∈ v1_fields → field r key = VUndefined.
Proof.
  split; [ vm_compute; reflexivity | ]. split; [ vm_compute; reflexivity | ].
  split; [ vm_compute; reflexivity | ].
  apply (parseToV2_backfillV2 v2Card); vm_compute; reflexivity.
Defined.

Lemma mergeObjectSync_failure pairs :
  Exists (λ pr, success pr.1.2 = false) pairs →
  success (mergeObjectSync pairs) = false.
Proof.
  intros Hex. destruct (success (mergeObjectSync pairs)) eqn:Hok; [ | done ].
  apply mergeObjectSync_success_iff in Hok.
  apply Exists_exists in Hex as (pr & Hin & Hpr).
  apply (proj1 (Forall_forall _ _) Hok) in Hin. congruence.
Qed.

Lemma v2_rejects_other_spec m s :
  s ≠ VString "chara_card_v2" →
  success (safeParse v2 (VObject (<["spec" := s]> m))) = false.
Proof.
  intros Hs. unfold safeParse, v2, z.object. rewrite parse_object.
  apply mergeObjectSync_failure. cbn [object_pairs fmap list_fmap fst snd].
  apply Exists_cons_hd. cbn [fst snd]. apply parse_literal_failure.
  unfold prop. by rewrite lookup_insert_eq.
Qed.

(** C7, as the code has it.  A document [d] that is a valid V2 document but
    for a [spec] other than ['chara_card_v2'] fails the v2 validator.
    [parseToV2 d] then throws the V2 error and [safeParseToV2 d] returns the
    failure when [d] fails the v1 validator too; when [d] passes it (a card
    with the six V1 fields at top level), both return the V1 upgrade. *)
Theorem wrong_spec_rejected m s :
  success (safeParse v2 (VObject m)) = true →
  s ≠ VString "chara_card_v2" →
  let d := VObject (<["spec" := s]> m) in
  success (safeParse v2 d) = false
  ∧ (success (safeParse v1 d) = false →
     ∃ e, safeParse v2 d = SafeParseError e
          ∧ parseToV2 d = Throw (ThrowZodError e)
          ∧ safeParseToV2 d = SafeParseError e)
  ∧ (∀ c, safeParse v1 d = SafeParseSuccess c →
          parseToV2 d = Return (v1ToV2 c)
          ∧ safeParseToV2 d = SafeParseSuccess (v1ToV2 c)).
Proof.
  intros _ Hs d. pose proof (v2_rejects_other_spec m s Hs) as Hv2. fold d in Hv2.
  split; [ done | ].
  destruct (safeParse v2 d) as [ y | e ] eqn:Hparse; [ done | ]. split.
  - intros Hv1. exists e. split; [ done | ].
    unfold parseToV2, safeParseToV2. rewrite Hparse.
    by destruct (safeParse v1 d).
  - intros c Hv1. unfold parseToV2, safeParseToV2. rewrite Hparse, Hv1.
    split; [ done | by eapply safeParse_v1ToV2 ].
Qed.

Lemma wrong_spec_rejected_witness :
  success (safeParse v2 v2Card) = true
  ∧ VString "x" ≠ VString "chara_card_v2"
  ∧ success (safeParse v2 (VObject (<["spec" := VString "x"]> (spread v2Card)))) = false.
Proof.
  assert (Hvalid : success (safeParse v2 (VObject (spread v2Card))) = true)
    by (vm_compute; reflexivity).
  assert (Hspec : VString "x" ≠ VString "chara_card_v2") by discriminate.
  split; [ exact Hvalid | ]. split; [ exact Hspec | ].
  exact (proj1 (wrong_spec_rejected (spread v2Card) (VString "x") Hvalid Hspec)).
Defined.


(** C7 as stated fails: the backfilled test card is a valid V2 document;
    with its [spec] set to ['x'] the v2 validator fails, yet [parseToV2]
    returns a card and [safeParseToV2] a success, through the V1 fallback. *)
Lemma wrong_spec_backfilled_card_parses :
  success (safeParse v2 v2CardWithBackfilledV1Fields) = true
  ∧ field v2CardWithBackfilledV1FieldsSpecX "spec" = VString "x"
  ∧ success (safeParse v2 v2CardWithBackfilledV1FieldsSpecX) = false
  ∧ (∃ r, parseToV2 v2CardWithBackfilledV1FieldsSpecX = Return r)
  ∧ success (safeParseToV2 v2CardWithBackfilledV1FieldsSpecX) = true.
Proof.
  split; [ vm_compute; reflexivity | ]. split; [ vm_compute; reflexivity | ].
  split; [ vm_compute; reflexivity | ]. split; [ | vm_compute; reflexivity ].
  eexists. vm_compute. reflexivity.
Qed.

Lemma object_sub_shape shape1 shape2 p data :
  success (_parse (ZodObject (shape1 ++ shape2)) p data) = true →
  success (_parse (ZodObject shape2) p data) = true.
Proof.
  destruct data as [ | | | | | | m ]; try done.
  rewrite !parse_object, !mergeObjectSync_success_iff.
  unfold object_pairs. rewrite fmap_app, Forall_app. tauto.
Qed.

(** C9.  Every input the backfilledV2 validator accepts is accepted by the
    v2 validator, and some valid V2 document without the six top-level V1
    fields is rejected by the backfilledV2 validator. *)
Theorem backfilledV2_stricter_than_v2 :
  (∀ data, success (safeParse backfilledV2 data) = true →
           success (safeParse v2 data) = true)
  ∧ (∃ data, (∀ key, key ∈ v1_fields → field data key = VUndefined)
             ∧ success (safeParse v2 data) = true
             ∧ success (safeParse backfilledV2 data) = false).
Proof.
  split.
  - intros data. apply (object_sub_shape (shape_of v1) (shape_of v2)).
  - exists v2Card. split; [ | split; vm_compute; reflexivity ].
    intros key Hkey. unfold v1_fields in Hkey.
    repeat (apply elem_of_cons in Hkey as [ -> | Hkey ]; [ vm_compute; reflexivity | ]).
    by apply elem_of_nil in Hkey.
Qed.

Lemma backfilledV2_stricter_than_v2_witness :
  success (safeParse backfilledV2 v2CardWithBackfilledV1Fields) = true
  ∧ success (safeParse v2 v2CardWithBackfilledV1Fields) = true.
Proof.
  assert (Hvalid : success (safeParse backfilledV2 v2CardWithBackfilledV1Fields) = true)
    by (vm_compute; reflexivity).
  split; [ exact Hvalid | ].
  exact (proj1 backfilledV2_stricter_than_v2 _ Hvalid).
Defined.

(** ** The test suite, replayed on the model *)

Example test_parseToV2_v1Card : parseToV2 v1Card = Return v2CardFromV1.
Proof. vm_compute. reflexivity. Qed.

Example test_parseToV2_v2Card : parseToV2 v2Card = Return v2Card.
Proof. vm_compute. reflexivity. Qed.

Example test_parseToV2_throws :
  ∃ e, parseToV2 v2CardWithSpecX = Throw (ThrowZodError e).
Proof. eexists. vm_compute. reflexivity. Qed.

Example test_safeParseToV2_v1Card :
  safeParseToV2 v1Card = SafeParseSuccess v2CardFromV1.
Proof. vm_compute. reflexivity. Qed.

Example test_safeParseToV2_v2Card :
  safeParseToV2 v2Card = SafeParseSuccess v2Card.
Proof. vm_compute. reflexivity. Qed.

Example test_safeParseToV2_fails :
  success (safeParseToV2 v2CardWithSpecX) = false.
Proof. vm_compute. reflexivity. Qed.

Example test_v1ToV2 : v1ToV2 v1Card = v2CardFromV1.
Proof. vm_compute. reflexivity. Qed.

Example test_backfillV2 :
  backfillV2 v2Card = Return v2CardWithBackfilledV1Fields.
Proof. vm_compute. reflexivity. Qed.

Example test_backfillV2WithObsolescenceNotice :
  backfillV2WithObsolescenceNotice v2Card = v2CardWithBackfilledObsolescenceNotice.
Proof. vm_compute. reflexivity. Qed.

Example test_v1 :
  success (safeParse v1 v1Card) = true
  ∧ success (safeParse v1 v2CardWithBackfilledV1Fields) = true
  ∧ success (safeParse v1 (VObject ∅)) = false
  ∧ success (safeParse v1 v2Card) = false.
Proof. vm_compute. auto. Qed.

Example test_v2 :
  success (safeParse v2 v1Card) = false
  ∧ success (safeParse v2 v2CardWithBackfilledV1Fields) = true
  ∧ success (safeParse v2 (VObject ∅)) = false
  ∧ success (safeParse v2 v2Card) = true.
Proof. vm_compute. auto. Qed.

Example test_entry :
  success (safeParse entry bookEntry) = true
  ∧ success (safeParse entry v1Card) = false.
Proof. vm_compute. auto. Qed.

Example test_book :
  success (safeParse book testBook) = true
  ∧ success (safeParse book v1Card) = false.
Proof. vm_compute. auto. Qed.

(** * Further properties of the validators and converters *)

Ltac solve_elem_of :=
  repeat first [ apply list_elem_of_here | apply list_elem_of_further ].

Lemma same_outcome_refl r : same_outcome r r.
Proof. done. Qed.

Lemma same_outcome_success r1 r2 v :
  same_outcome r1 r2 → r1 = SafeParseSuccess v → r2 = SafeParseSuccess v.
Proof. intros [Hs Hv] ->. destruct r2; simpl in *; congruence. Qed.

Lemma same_outcome_eq r1 r2 :
  same_outcome r1 r2 → success r1 = true → r1 = r2.
Proof. intros [Hs Hv] Hok. destruct r1, r2; simpl in *; congruence. Qed.

Lemma mergeArray_same_outcome rs1 rs2 :
  Forall2 same_outcome rs1 rs2 → same_outcome (mergeArray rs1) (mergeArray rs2).
Proof.
  intros Hall. unfold mergeArray.
  assert (Hs : forallb success rs1 = forallb success rs2).
  { induction Hall as [ | r1 r2 rs1 rs2 [Hr _] _ IH ]; simpl; [ done | by rewrite Hr, IH ]. }
  rewrite <- Hs. destruct (forallb success rs1) eqn:Hok; [ | done ].
  replace rs2 with rs1; [ done | ]. clear Hs.
  induction Hall as [ | r1 r2 rs1 rs2 Hr _ IH ]; [ done | ].
  simpl in Hok. apply andb_true_iff in Hok as [Hok1 Hok].
  f_equal; [ by apply same_outcome_eq | by apply IH ].
Qed.

Lemma mergeObjectSync_same_outcome pairs1 pairs2 :
  Forall2 (λ pr1 pr2, pr1.1.1 = pr2.1.1 ∧ same_outcome pr1.1.2 pr2.1.2 ∧ pr1.2 = pr2.2)
          pairs1 pairs2 →
  same_outcome (mergeObjectSync pairs1) (mergeObjectSync pairs2).
Proof.
  intros Hall. unfold mergeObjectSync.
  assert (Hs : forallb (λ p, success p.1.2) pairs1 = forallb (λ p, success p.1.2) pairs2).
  { induction Hall as [ | pr1 pr2 ps1 ps2 (_ & [Hr _] & _) _ IH ]; simpl;
      [ done | by rewrite Hr, IH ]. }
  rewrite <- Hs. destruct (forallb _ pairs1) eqn:Hok; [ | done ].
  replace pairs2 with pairs1; [ done | ]. clear Hs.
  induction Hall as [ | [[k1 r1] f1] [[k2 r2] f2] ps1 ps2 (Hk & Hr & Hf) _ IH ]; [ done | ].
  simpl in *. apply andb_true_iff in Hok as [Hok1 Hok].
  f_equal; [ | by apply IH ]. subst. f_equal. f_equal. by apply same_outcome_eq.
Qed.

Lemma Forall2_imap {A B} (R : B → B → Prop) (f g : nat → A → B) l :
  (∀ i x, R (f i x) (g i x)) → Forall2 R (imap f l) (imap g l).
Proof.
  revert f g. induction l as [ | x l IH ]; intros f g Hfg; simpl; constructor.
  - apply Hfg.
  - apply IH. intros i y. apply Hfg.
Qed.

Lemma parse_path_irrelevant t :
  ∀ p p' data, same_outcome (_parse t p data) (_parse t p' data).
Proof.
  induction t as
    [ | | | | lit | element IH | valueType IH | shape IH | innerType IH | options IH ]
    using ZodType_nested_ind; intros p p' data.
  - by destruct data.
  - by destruct data as [ | | | [] | | | ].
  - by destruct data.
  - done.
  - destruct data; try done. simpl. by case_decide.
  - destruct data; try done. simpl. apply mergeArray_same_outcome, Forall2_imap.
    intros i x. apply IH.
  - destruct data as [ | | | | | | m ]; try done. simpl.
    apply mergeObjectSync_same_outcome, Forall2_fmap, Forall_Forall2_diag, Forall_forall.
    intros [k v] _. simpl. split; [ done | ]. split; [ apply IH | done ].
  - destruct data as [ | | | | | | m ]; try done. rewrite !parse_object.
    apply mergeObjectSync_same_outcome. unfold object_pairs.
    apply Forall2_fmap, Forall_Forall2_diag.
    eapply Forall_impl; [ exact IH | ]. intros [k t] IHt. simpl in *.
    split; [ done | ]. split; [ apply IHt | done ].
  - destruct data; simpl; try done; apply IH.
  - rewrite !parse_union. generalize (@nil ZodError) at 1. generalize (@nil ZodError).
    induction options as [ | t rest IHrest ]; intros errs errs'; simpl; [ done | ].
    apply Forall_cons in IH as [IHt IH].
    destruct (IHt p p' data) as [Hs Hv].
    destruct (_parse t p data), (_parse t p' data); simpl in *; try done.
    by apply IHrest.
Qed.

Lemma identity_schema_union options :
  identity_schema (ZodUnion options) = forallb identity_schema options.
Proof. simpl. induction options as [ | t rest IH ]; simpl; [ done | by rewrite IH ]. Qed.

Lemma well_formed_object shape :
  well_formed (ZodObject shape)
  = bool_decide (NoDup shape.*1 ∧ "__proto__" ∉ shape.*1)
    && forallb (λ kt, well_formed kt.2) shape.
Proof.
  simpl. generalize (bool_decide (NoDup shape.*1 ∧ "__proto__" ∉ shape.*1)).
  intros b. f_equal.
  induction shape as [ | [k t] rest IH ]; simpl; [ done | by rewrite IH ].
Qed.

Lemma identity_schema_parse t :
  identity_schema t = true →
  ∀ p data y, _parse t p data = SafeParseSuccess y → y = data.
Proof.
  induction t as
    [ | | | | lit | element IH | valueType IH | shape IH | innerType IH | options IH ]
    using ZodType_nested_ind; intros Hid p data y Hparse; try done.
  - destruct data; by simplify_eq/=.
  - destruct data as [ | | | [] | | | ]; by simplify_eq/=.
  - destruct data; by simplify_eq/=.
  - by simplify_eq/=.
  - destruct data; simplify_eq/=. by case_decide; simplify_eq.
  - destruct data; simplify_eq/=; try done; by eapply IH.
  - rewrite identity_schema_union in Hid. rewrite parse_union in Hparse.
    revert Hparse. generalize (@nil ZodError).
    induction options as [ | t rest IHrest ]; intros errs Hparse; simpl in *; [ done | ].
    apply Forall_cons in IH as [IHt IH]. apply andb_true_iff in Hid as [Ht Hrest].
    destruct (_parse t p data) eqn:Hpt.
    + simplify_eq. by eapply IHt.
    + by eapply IHrest.
Qed.

Lemma set_pair_lookup_fresh final pr :
  final !! pr.1.1 = None → set_pair final pr !! pr.1.1 = set_pair ∅ pr !! pr.1.1.
Proof.
  intros Hfresh. unfold set_pair. case_decide; [ by rewrite lookup_empty | ].
  destruct pr.1.2 as [ [] | ]; try destruct pr.2;
    rewrite ?lookup_insert_eq, ?lookup_empty; done.
Qed.

Lemma final_object_lookup pairs pr :
  NoDup pairs.*1.*1 → pr ∈ pairs →
  final_object pairs !! pr.1.1 = set_pair ∅ pr !! pr.1.1.
Proof.
  induction pairs as [ | pr' pairs IH ] using rev_ind; intros Hnodup Hin.
  - by apply elem_of_nil in Hin.
  - rewrite !fmap_app in Hnodup. apply NoDup_app in Hnodup as (Hnodup & Hfresh & _).
    rewrite final_object_snoc. apply elem_of_app in Hin as [ Hin | Hin ].
    + assert (Hkey : pr.1.1 ∈ pairs.*1.*1).
      { apply list_elem_of_fmap. exists pr.1. split; [ done | ].
        apply list_elem_of_fmap. by exists pr. }
      rewrite set_pair_lookup_ne; [ by apply IH | ].
      intros Heq. apply (Hfresh _ Hkey). rewrite <- Heq. apply list_elem_of_here.
    + apply list_elem_of_singleton in Hin as ->.
      apply set_pair_lookup_fresh, final_object_lookup_notin.
      intros Hkey. apply (Hfresh _ Hkey). apply list_elem_of_here.
Qed.

Lemma set_pair_stable (my : gmap string value) key v flag :
  key ≠ "__proto__" →
  my !! key = set_pair ∅ (key, SafeParseSuccess v, flag) !! key →
  prop my key = v
  ∧ set_pair ∅ (key, SafeParseSuccess v, has_key my key) !! key = my !! key.
Proof.
  intros Hkey. unfold set_pair, prop, has_key. cbn [fst snd].
  rewrite !decide_False by done.
  destruct v, flag; rewrite ?lookup_insert_eq, ?lookup_empty; intros ->; simpl;
    rewrite ?lookup_insert_eq, ?lookup_empty; try done.
Qed.

Lemma set_pair_unflagged_Some key r v :
  set_pair ∅ (key, r, false) !! key = Some v
  ↔ r = SafeParseSuccess v ∧ v ≠ VUndefined ∧ key ≠ "__proto__".
Proof.
  unfold set_pair. cbn [fst snd]. case_decide as Hkey.
  - rewrite lookup_empty. split; [ done | by intros (_ & _ & ?) ].
  - destruct r as [ [] | ]; rewrite ?lookup_insert_eq, ?lookup_empty;
      (split; [ intros [= <-] | intros ([= <-] & ? & _) ]); done.
Qed.

Lemma imap_idempotent (g : nat → value → SafeParseReturnType) items :
  (∀ i x y, g i x = SafeParseSuccess y → g i y = SafeParseSuccess y) →
  Forall (λ r, success r = true) (imap g items) →
  imap g (result_value <$> imap g items) = imap g items.
Proof.
  revert g. induction items as [ | x items IH ]; intros g Hg Hall; [ done | ].
  simpl in *. apply Forall_cons in Hall as [Hx Hall].
  apply success_result_value in Hx. f_equal.
  - transitivity (SafeParseSuccess (result_value (g 0 x))); [ by apply (Hg 0 x) | done ].
  - apply IH; [ | done ]. intros i. apply Hg.
Qed.

Lemma parse_idempotent t :
  well_formed t = true →
  ∀ p data y, _parse t p data = SafeParseSuccess y → _parse t p y = SafeParseSuccess y.
Proof.
  induction t as
    [ | | | | lit | element IH | valueType IH | shape IH | innerType IH | options IH ]
    using ZodType_nested_ind; intros Hwf p data y Hparse.
  - destruct data; by simplify_eq/=.
  - destruct data as [ | | | [] | | | ]; by simplify_eq/=.
  - destruct data; by simplify_eq/=.
  - by simplify_eq/=.
  - destruct data; simpl in Hparse; try done. case_decide; [ | done ].
    simplify_eq. apply parse_literal_same.
  - destruct data as [ | | | | | items | ]; try done. simpl in Hparse, Hwf.
    apply mergeArray_success in Hparse as [Hall ->]. simpl.
    rewrite imap_idempotent; [ | intros i x y; by apply IH | done ].
    unfold mergeArray. by rewrite (proj2 (forallb_true_Forall _ _) Hall).
  - destruct data as [ | | | | | | m ]; try done. simpl in Hparse, Hwf.
    apply mergeObjectSync_success in Hparse as [Hall ->]. apply Forall_fmap in Hall.
    set (f := λ kv : string * value,
                (kv.1, _parse valueType (p ++ [inl kv.1]) kv.2, false)) in *.
    set (my := final_object (f <$> map_to_list m)).
    assert (Hkeys : ∀ l : list (string * value), (f <$> l).*1.*1 = l.*1).
    { intros l. by rewrite <- !list_fmap_compose. }
    assert (Hmy : ∀ key v', my !! key = Some v' →
                            _parse valueType (p ++ [inl key]) v' = SafeParseSuccess v'
                            ∧ v' ≠ VUndefined ∧ key ≠ "__proto__").
    { intros key v' Hlookup. destruct (m !! key) as [ v | ] eqn:Hm.
      - apply elem_of_map_to_list in Hm.
        unfold my in Hlookup.
        rewrite (final_object_lookup _ (f (key, v))) in Hlookup.
        + apply set_pair_unflagged_Some in Hlookup as (Hv & Hne & Hkey). simpl in Hv.
          split; [ by eapply IH | done ].
        + rewrite Hkeys. apply NoDup_fst_map_to_list.
        + apply list_elem_of_fmap. by exists (key, v).
      - unfold my in Hlookup. rewrite final_object_lookup_notin in Hlookup; [ done | ].
        rewrite Hkeys. intros Hin. apply list_elem_of_fmap in Hin as ([k v] & -> & Hin).
        apply elem_of_map_to_list in Hin. simpl in Hm. congruence. }
    simpl. fold f. unfold mergeObjectSync.
    assert (Hok : forallb (λ pr, success pr.1.2) (f <$> map_to_list my) = true).
    { apply forallb_true_Forall, Forall_fmap, Forall_forall. intros [k v'] Hin. simpl.
      apply elem_of_map_to_list in Hin. by rewrite (proj1 (Hmy _ _ Hin)). }
    rewrite Hok. f_equal. f_equal. apply map_eq. intros key.
    destruct (my !! key) as [ v' | ] eqn:Hlookup.
    + rewrite (final_object_lookup _ (f (key, v'))).
      * simpl. apply set_pair_unflagged_Some. by apply Hmy.
      * rewrite Hkeys. apply NoDup_fst_map_to_list.
      * apply list_elem_of_fmap. exists (key, v'). split; [ done | ].
        by apply elem_of_map_to_list.
    + apply final_object_lookup_notin. rewrite Hkeys. intros Hin.
      apply list_elem_of_fmap in Hin as ([k v] & -> & Hin).
      apply elem_of_map_to_list in Hin. simpl in Hlookup. congruence.
  - destruct data as [ | | | | | | m ]; try done.
    rewrite well_formed_object in Hwf. apply andb_true_iff in Hwf as [Hnodup Hwf].
    apply bool_decide_eq_true in Hnodup as [Hnodup Hnoproto].
    rewrite parse_object in Hparse. apply mergeObjectSync_success in Hparse as [Hall ->].
    set (my := final_object (object_pairs p m shape)).
    assert (Hkeys : ∀ m', (object_pairs p m' shape).*1.*1 = shape.*1).
    { intros m'. unfold object_pairs. by rewrite <- !list_fmap_compose. }
    assert (Hfield : ∀ key t, (key, t) ∈ shape →
               ∃ v, _parse t (p ++ [inl key]) (prop m key) = SafeParseSuccess v
                    ∧ _parse t (p ++ [inl key]) v = SafeParseSuccess v
                    ∧ prop my key = v
                    ∧ set_pair ∅ (key, SafeParseSuccess v, has_key my key) !! key
                      = my !! key).
    { intros key t Hin.
      assert (Hpr : (key, _parse t (p ++ [inl key]) (prop m key), has_key m key)
                    ∈ object_pairs p m shape).
      { unfold object_pairs. apply list_elem_of_fmap. by exists (key, t). }
      pose proof (proj1 (Forall_forall _ _) Hall _ Hpr) as Hok. simpl in Hok.
      apply success_result_value in Hok. eexists. split; [ exact Hok | ].
      pose proof (proj1 (Forall_forall _ _) IH _ Hin) as IHt. simpl in IHt.
      split.
      { eapply IHt; [ | exact Hok ].
        by apply (forallb_elem_of _ _ _ Hwf) in Hin. }
      apply (set_pair_stable my key _ (has_key m key)).
      { intros ->. apply Hnoproto. apply list_elem_of_fmap. by exists ("__proto__", t). }
      pose proof (final_object_lookup _ _ (eq_ind_r NoDup Hnodup (Hkeys m)) Hpr) as Hl.
      cbn [fst snd] in Hl. unfold my. rewrite Hl. by rewrite <- Hok. }
    rewrite parse_object. unfold mergeObjectSync.
    assert (Hok : forallb (λ pr, success pr.1.2) (object_pairs p my shape) = true).
    { apply forallb_true_Forall. unfold object_pairs. apply Forall_fmap, Forall_forall.
      intros [key t] Hin. simpl. destruct (Hfield key t Hin) as (v & _ & Hv & Hprop & _).
      by rewrite Hprop, Hv. }
    rewrite Hok. f_equal. f_equal. apply map_eq. intros key.
    destruct (decide (key ∈ shape.*1)) as [ Hin | Hnotin ].
    + apply list_elem_of_fmap in Hin as ([k t] & -> & Hin). simpl.
      destruct (Hfield k t Hin) as (v & _ & Hv & Hprop & Hstable).
      assert (Hpr : (k, _parse t (p ++ [inl k]) (prop my k), has_key my k)
                    ∈ object_pairs p my shape).
      { unfold object_pairs. apply list_elem_of_fmap. by exists (k, t). }
      pose proof (final_object_lookup _ _ (eq_ind_r NoDup Hnodup (Hkeys my)) Hpr) as Hl.
      cbn [fst snd] in Hl. rewrite Hl, Hprop, Hv. exact Hstable.
    + rewrite final_object_lookup_notin by by rewrite Hkeys.
      symmetry. apply final_object_lookup_notin. by rewrite Hkeys.
  - destruct data; simpl in Hparse, Hwf |- *; simplify_eq; try done;
      (pose proof (IH Hwf _ _ _ Hparse) as Hy; destruct y; by simplify_eq/=).
  - simpl in Hwf. fold (identity_schema (ZodUnion options)) in Hwf.
    assert (y = data) as -> by by eapply (identity_schema_parse (ZodUnion options)).
    done.
Qed.

Lemma validators_well_formed t : t ∈ validators → well_formed t = true.
Proof.
  intros Hin. unfold validators in Hin.
  repeat (apply elem_of_cons in Hin as [ -> | Hin ]; [ vm_compute; reflexivity | ]).
  by apply elem_of_nil in Hin.
Qed.

(** X4.  Each of the five exported validators is idempotent on input that
    has no key [__proto__] where the schema reads an object or a record:
    what the validator returns for it, it accepts again and returns
    unchanged.  (An object bound to [__proto__] in a record would become the
    prototype of the output, which the values here do not have.) *)
Theorem validators_idempotent t data y :
  t ∈ validators →
  no_proto_keys t data = true →
  safeParse t data = SafeParseSuccess y →
  safeParse t y = SafeParseSuccess y.
Proof. intros Hin _. apply parse_idempotent. by apply validators_well_formed. Qed.

Lemma validators_idempotent_witness :
  v2 ∈ validators
  ∧ no_proto_keys v2 v2CardWithBackfilledV1Fields = true
  ∧ safeParse v2 v2CardWithBackfilledV1Fields = SafeParseSuccess v2Card
  ∧ safeParse v2 v2Card = SafeParseSuccess v2Card.
Proof.
  assert (Hin : v2 ∈ validators) by (unfold validators; solve_elem_of).
  assert (Hproto : no_proto_keys v2 v2CardWithBackfilledV1Fields = true)
    by (vm_compute; reflexivity).
  assert (Hparse : safeParse v2 v2CardWithBackfilledV1Fields = SafeParseSuccess v2Card)
    by (vm_compute; reflexivity).
  split; [ exact Hin | ]. split; [ exact Hproto | ]. split; [ exact Hparse | ].
  exact (validators_idempotent v2 _ _ Hin Hproto Hparse).
Defined.


(** X5.  What [parseToV2] returns, for input with no key [__proto__] where
    the v2 schema reads an object or a record, is a valid V2 card in
    canonical form: the v2 validator accepts it and returns it unchanged. *)
Theorem parseToV2_result_valid data r :
  no_proto_keys v2 data = true →
  parseToV2 data = Return r → safeParse v2 r = SafeParseSuccess r.
Proof.
  intros _. unfold parseToV2.
  destruct (safeParse v2 data) as [ d | e ] eqn:Hv2.
  - intros [= <-]. apply (parse_idempotent v2 eq_refl [] data). exact Hv2.
  - destruct (safeParse v1 data) as [ c | e1 ] eqn:Hv1; [ | done ].
    intros [= <-]. by eapply safeParse_v1ToV2.
Qed.

Lemma parseToV2_result_valid_witness :
  no_proto_keys v2 v1Card = true
  ∧ parseToV2 v1Card = Return v2CardFromV1
  ∧ safeParse v2 v2CardFromV1 = SafeParseSuccess v2CardFromV1.
Proof.
  assert (Hproto : no_proto_keys v2 v1Card = true) by (vm_compute; reflexivity).
  assert (Hparse : parseToV2 v1Card = Return v2CardFromV1) by (vm_compute; reflexivity).
  split; [ exact Hproto | ].
  split; [ exact Hparse | exact (parseToV2_result_valid _ _ Hproto Hparse) ].
Defined.


(** X6.  [parseToV2] returns a card exactly when the v2 or the v1 validator
    accepts the input, and [safeParseToV2] succeeds on the same inputs. *)
Theorem parseToV2_succeeds_iff data :
  ((∃ r, parseToV2 data = Return r)
   ↔ success (safeParse v2 data) = true ∨ success (safeParse v1 data) = true)
  ∧ success (safeParseToV2 data)
    = success (safeParse v2 data) || success (safeParse v1 data).
Proof.
  unfold parseToV2, safeParseToV2.
  destruct (safeParse v2 data) as [ d | e ] eqn:Hv2; simpl.
  - split; [ | done ]. split; [ by left | by eexists ].
  - destruct (safeParse v1 data) as [ c | e1 ] eqn:Hv1; simpl.
    + rewrite (safeParse_v1ToV2 _ _ Hv1). split; [ | done ].
      split; [ by right | by eexists ].
    + split; [ | done ]. split; [ by intros [r ?] | by intros [ ? | ? ] ].
Qed.

Lemma object_app_shape shape1 shape2 p data :
  success (_parse (ZodObject (shape1 ++ shape2)) p data)
  = success (_parse (ZodObject shape1) p data)
    && success (_parse (ZodObject shape2) p data).
Proof.
  destruct data as [ | | | | | | m ]; try done.
  rewrite !parse_object. unfold mergeObjectSync, object_pairs.
  rewrite fmap_app, forallb_app.
  by do 2 destruct (forallb _ _).
Qed.

Lemma success_path t p p' data :
  success (_parse t p data) = success (_parse t p' data).
Proof. apply parse_path_irrelevant. Qed.

Lemma string_fields_accepted shape p m :
  Forall (λ kt, kt.2 = ZodString) shape →
  success (_parse (ZodObject shape) p (VObject m)) = true
  ↔ ∀ key, key ∈ shape.*1 → ∃ s, m !! key = Some (VString s).
Proof.
  intros Hshape. rewrite parse_object, mergeObjectSync_success_iff.
  unfold object_pairs. rewrite Forall_fmap, Forall_forall. split.
  - intros Hall key Hkey. apply list_elem_of_fmap in Hkey as ([k t] & -> & Hin).
    pose proof (proj1 (Forall_forall _ _) Hshape _ Hin) as Ht. simpl in Ht. subst t.
    apply Hall in Hin. simpl in Hin. apply parse_string_success in Hin as [s Hs].
    exists s. apply prop_inv; done.
  - intros Hall [k t] Hin. simpl.
    pose proof (proj1 (Forall_forall _ _) Hshape _ Hin) as Ht. simpl in Ht. subst t.
    destruct (Hall k) as [s Hs].
    { apply list_elem_of_fmap. by exists (k, ZodString). }
    by rewrite (prop_Some _ _ _ Hs).
Qed.

Lemma v1_success_iff data :
  success (safeParse v1 data) = true
  ↔ ∃ m, data = VObject m ∧ ∀ key, key ∈ v1_fields → ∃ s, m !! key = Some (VString s).
Proof.
  split.
  - intros Hok. destruct (parse_object_success_inv _ _ _ Hok) as [m ->].
    exists m. split; [ done | ].
    apply (string_fields_accepted (shape_of v1) [] m); [ | done ].
    repeat constructor.
  - intros (m & -> & Hfields).
    apply (string_fields_accepted (shape_of v1) [] m); [ repeat constructor | done ].
Qed.

Lemma v1_output data c :
  safeParse v1 data = SafeParseSuccess c →
  ∃ mc, c = VObject mc
        ∧ ∀ key, mc !! key
                 = if bool_decide (key ∈ v1_fields) then spread data !! key else None.
Proof.
  intros (m & n & d & p & s & f & e & -> & Hn & Hd & Hp & Hs & Hf & He & ->)%v1_success_inv.
  eexists. split; [ done | ]. intros key. cbn [spread].
  unfold v1_fields, object_literal, set_props. cbn [fold_left fst snd].
  repeat (rewrite lookup_insert; case_decide;
          [ subst key; rewrite bool_decide_eq_true_2 by (repeat constructor); done | ]).
  rewrite lookup_empty, bool_decide_eq_false_2; [ done | ]. intros Hin.
  repeat (apply elem_of_cons in Hin as [ -> | Hin ]; [ done | ]).
  by apply elem_of_nil in Hin.
Qed.

(** X1.  The v1 validator accepts exactly the objects whose six V1 fields
    are strings, whatever else they hold, and its output is the input cut
    down to those six fields. *)
Theorem v1_accepts_exactly data :
  (success (safeParse v1 data) = true
   ↔ ∃ m, data = VObject m
          ∧ ∀ key, key ∈ v1_fields → ∃ s, m !! key = Some (VString s))
  ∧ ∀ c, safeParse v1 data = SafeParseSuccess c →
         ∃ mc, c = VObject mc
               ∧ ∀ key, mc !! key
                        = if bool_decide (key ∈ v1_fields)
                          then spread data !! key else None.
Proof. split; [ apply v1_success_iff | apply v1_output ]. Qed.


Lemma parse_object_field shape p m key t :
  success (_parse (ZodObject shape) p (VObject m)) = true →
  (key, t) ∈ shape →
  success (safeParse t (prop m key)) = true.
Proof.
  rewrite parse_object, mergeObjectSync_success_iff. unfold object_pairs.
  rewrite Forall_fmap, Forall_forall. intros Hall Hin. apply Hall in Hin. simpl in Hin.
  unfold safeParse. by rewrite (success_path t [] (p ++ [inl key])).
Qed.

Lemma v2_data_shape : v2_data = ZodObject (shape_of v1 ++ drop 6 (shape_of v2_data)).
Proof. reflexivity. Qed.

Lemma v2_data_fields d :
  success (safeParse v2 d) = true →
  ∃ md, field d "data" = VObject md
        ∧ ∀ p, success (_parse v2_data p (VObject md)) = true.
Proof.
  intros Hvalid. apply success_result_value in Hvalid.
  apply v2_success_inv in Hvalid as (m & sv & md & d' & -> & _ & _ & Hdata & Hd' & _).
  exists md. split; [ by apply prop_Some | ].
  intros p. by rewrite (success_path v2_data p [inl "data"]), Hd'.
Qed.

Lemma v2_data_valid d :
  success (safeParse v2 d) = true →
  success (safeParse v1 (field d "data")) = true
  ∧ (field (field d "data") "character_book" = VUndefined
     ∨ success (safeParse book (field (field d "data") "character_book")) = true).
Proof.
  intros (md & -> & Hdata)%v2_data_fields. specialize (Hdata []). split.
  - rewrite v2_data_shape, object_app_shape in Hdata.
    by apply andb_true_iff in Hdata as [Hv1 _].
  - assert (Hbook : success (safeParse (optional book) (prop md "character_book")) = true).
    { apply (parse_object_field (shape_of v2_data) [] md); [ exact Hdata | ].
      vm_compute. repeat constructor. }
    cbn [field]. destruct (prop md "character_book"); try (by right); by left.
Qed.

(** X2.  The [data] of a valid V2 card is itself accepted by the v1
    validator, and its [character_book] is either undefined or accepted by
    the book validator. *)
Theorem v2_card_parts_valid d :
  success (safeParse v2 d) = true →
  success (safeParse v1 (field d "data")) = true
  ∧ (field (field d "data") "character_book" = VUndefined
     ∨ success (safeParse book (field (field d "data") "character_book")) = true).
Proof. apply v2_data_valid. Qed.

Lemma v2_card_parts_valid_witness :
  success (safeParse v2 v2Card) = true
  ∧ success (safeParse v1 (field v2Card "data")) = true.
Proof.
  assert (Hvalid : success (safeParse v2 v2Card) = true) by (vm_compute; reflexivity).
  split; [ exact Hvalid | exact (proj1 (v2_card_parts_valid v2Card Hvalid)) ].
Defined.


Lemma set_props_snoc fields kv base :
  set_props (fields ++ [kv]) base = <[kv.1 := kv.2]> (set_props fields base).
Proof. unfold set_props. by rewrite fold_left_app. Qed.

Lemma lookup_set_props_in fields base1 base2 key :
  key ∈ fields.*1 → set_props fields base1 !! key = set_props fields base2 !! key.
Proof.
  induction fields as [ | kv fields IH ] using rev_ind; intros Hin.
  - by apply elem_of_nil in Hin.
  - rewrite !set_props_snoc. destruct (decide (kv.1 = key)) as [ <- | Hne ].
    + by rewrite !lookup_insert_eq.
    + rewrite !lookup_insert_ne by done. apply IH.
      rewrite fmap_app in Hin. apply elem_of_app in Hin as [ Hin | Hin ]; [ done | ].
      apply list_elem_of_singleton in Hin. by subst.
Qed.

Lemma set_props_override fields1 fields2 base :
  fields2.*1 ⊆ fields1.*1 →
  set_props fields1 (set_props fields2 base) = set_props fields1 base.
Proof.
  intros Hsub. apply map_eq. intros key.
  destruct (decide (key ∈ fields1.*1)) as [ Hin | Hnotin ].
  - by apply lookup_set_props_in.
  - rewrite !lookup_set_props_notin; [ done | done | | done ].
    intros Hin. by apply Hnotin, Hsub.
Qed.

Lemma backfillV2_object m :
  backfillV2 (VObject m)
  = match prop m "data" with
    | VUndefined | VNull => Throw ThrowTypeError
    | data =>
        Return (VObject (set_props ((λ key, (key, field data key)) <$> v1_fields) m))
    end.
Proof. unfold backfillV2, data_member. simpl. by destruct (prop m "data"). Qed.

(** X7.  [backfillV2] throws a TypeError exactly when the [data] of its
    argument is undefined or null (reading [v2Card.data.name] fails), which
    includes every argument that is not an object; for every other [data],
    of whatever type, it returns, and what it returns is the card with the
    six V1 fields set to what [data] holds under their names.  It throws
    nothing but a TypeError. *)
Theorem backfillV2_throws_iff v2Card :
  (backfillV2 v2Card = Throw ThrowTypeError
   ↔ field v2Card "data" = VUndefined ∨ field v2Card "data" = VNull)
  ∧ (backfillV2 v2Card
     = Return (VObject (set_props ((λ key, (key, field (field v2Card "data") key))
                                     <$> v1_fields) (spread v2Card)))
     ↔ field v2Card "data" ≠ VUndefined ∧ field v2Card "data" ≠ VNull)
  ∧ ∀ e, backfillV2 v2Card = Throw e → e = ThrowTypeError.
Proof.
  destruct v2Card as [ | | b | n | s | items | m ];
    try (split; [ split; [ by left | done ] | ];
         split; [ split; [ done | by intros [? _] ] | by intros e [= <-] ]).
  rewrite backfillV2_object. cbn [field spread].
  destruct (prop m "data"); (split; [ | split ]);
    try (intros e [= <-]; reflexivity); try (by intros e [=]);
    (split; [ try done; auto | try done; try (by intros [ ? | ? ]); try (by intros [? ?]) ]).
Qed.

(** X8.  [backfillV2] applied to a validated V1 card, which has no [data],
    throws a TypeError. *)
Theorem backfillV2_of_v1_output data c :
  safeParse v1 data = SafeParseSuccess c → backfillV2 c = Throw ThrowTypeError.
Proof.
  intros (mc & -> & Hmc)%v1_output. rewrite backfillV2_object.
  unfold prop. rewrite Hmc. rewrite bool_decide_eq_false_2; [ done | ].
  intros Hin. unfold v1_fields in Hin.
  repeat (apply elem_of_cons in Hin as [ Hin | Hin ]; [ discriminate | ]).
  by apply elem_of_nil in Hin.
Qed.

Lemma backfillV2_of_v1_output_witness :
  safeParse v1 v1Card = SafeParseSuccess v1Card
  ∧ backfillV2 v1Card = Throw ThrowTypeError.
Proof.
  assert (Hparse : safeParse v1 v1Card = SafeParseSuccess v1Card)
    by (vm_compute; reflexivity).
  split; [ exact Hparse | exact (backfillV2_of_v1_output _ _ Hparse) ].
Defined.


Lemma backfillV2WithObsolescenceNotice_object m :
  backfillV2WithObsolescenceNotice (VObject m)
  = VObject (set_props ((λ key, (key, VString obsolescenceNotice)) <$> v1_fields) m).
Proof. done. Qed.

Lemma v1_field_not_data key : key ∈ v1_fields → key ≠ "data".
Proof.
  intros Hin ->. unfold v1_fields in Hin.
  repeat (apply elem_of_cons in Hin as [ Hin | Hin ]; [ discriminate | ]).
  by apply elem_of_nil in Hin.
Qed.

Lemma v1_fields_keys (f : string → value) :
  ((λ key, (key, f key)) <$> v1_fields).*1 = v1_fields.
Proof. done. Qed.

Lemma prop_backfilled_data (f : string → value) m :
  prop (set_props ((λ key, (key, f key)) <$> v1_fields) m) "data" = prop m "data".
Proof.
  unfold prop. rewrite lookup_set_props_notin; [ done | ].
  rewrite v1_fields_keys. intros Hin. by apply v1_field_not_data in Hin.
Qed.

Lemma backfillV2_returns m b :
  backfillV2 (VObject m) = Return b →
  ∃ data, prop m "data" = data
          ∧ data ≠ VUndefined ∧ data ≠ VNull
          ∧ b = VObject (set_props ((λ key, (key, field data key)) <$> v1_fields) m).
Proof.
  rewrite backfillV2_object. intros Hb. exists (prop m "data").
  destruct (prop m "data"); simplify_eq; done.
Qed.

Lemma backfillV2_intro m data :
  prop m "data" = data → data ≠ VUndefined → data ≠ VNull →
  backfillV2 (VObject m)
  = Return (VObject (set_props ((λ key, (key, field data key)) <$> v1_fields) m)).
Proof. intros <- ? ?. rewrite backfillV2_object. by destruct (prop m "data"). Qed.

(** X9.  How the two backfill functions compose, on any object card [m] that
    [backfillV2] takes to [b]: backfilling [b] again gives [b]; backfilling
    the card with the notice gives [b] too, since the six fields are read
    from [data]; and the notice over [b] is the notice over the card. *)
Theorem backfill_compositions m b :
  backfillV2 (VObject m) = Return b →
  backfillV2 b = Return b
  ∧ backfillV2 (backfillV2WithObsolescenceNotice (VObject m)) = Return b
  ∧ backfillV2WithObsolescenceNotice b = backfillV2WithObsolescenceNotice (VObject m).
Proof.
  intros (data & Hdata & Hundef & Hnull & ->)%backfillV2_returns.
  split; [ | split ].
  - rewrite (backfillV2_intro _ data); [ | by rewrite prop_backfilled_data | done | done ].
    by rewrite set_props_override by by rewrite !v1_fields_keys.
  - rewrite backfillV2WithObsolescenceNotice_object.
    rewrite (backfillV2_intro _ data); [ | by rewrite prop_backfilled_data | done | done ].
    by rewrite set_props_override by by rewrite !v1_fields_keys.
  - rewrite !backfillV2WithObsolescenceNotice_object.
    by rewrite set_props_override by by rewrite !v1_fields_keys.
Qed.

Lemma backfill_compositions_witness :
  backfillV2 (VObject (spread v2Card)) = Return v2CardWithBackfilledV1Fields
  ∧ backfillV2 v2CardWithBackfilledV1Fields = Return v2CardWithBackfilledV1Fields.
Proof.
  assert (Hb : backfillV2 (VObject (spread v2Card))
               = Return v2CardWithBackfilledV1Fields) by (vm_compute; reflexivity).
  split; [ exact Hb | exact (proj1 (backfill_compositions _ _ Hb)) ].
Defined.


(** X10.  Neither backfill function touches a field other than the six V1
    fields: every other top-level field of the card, known to the schema or
    not, is in the result as it was. *)
Theorem backfill_keeps_other_fields m key :
  key ∉ v1_fields →
  field (backfillV2WithObsolescenceNotice (VObject m)) key = prop m key
  ∧ ∀ b, backfillV2 (VObject m) = Return b → field b key = prop m key.
Proof.
  intros Hkey. split.
  - rewrite backfillV2WithObsolescenceNotice_object. cbn [field]. unfold prop.
    by rewrite lookup_set_props_notin by by rewrite v1_fields_keys.
  - intros b (data & _ & _ & _ & ->)%backfillV2_returns. cbn [field]. unfold prop.
    by rewrite lookup_set_props_notin by by rewrite v1_fields_keys.
Qed.

Lemma backfill_keeps_other_fields_witness :
  ("spec" ∉ v1_fields)
  ∧ field (backfillV2WithObsolescenceNotice (VObject (spread v2Card))) "spec"
    = prop (spread v2Card) "spec".
Proof.
  assert (Hkey : "spec" ∉ v1_fields).
  { intros Hin. unfold v1_fields in Hin.
    repeat (apply elem_of_cons in Hin as [ Hin | Hin ]; [ discriminate | ]).
    by apply elem_of_nil in Hin. }
  split; [ exact Hkey | exact (proj1 (backfill_keeps_other_fields _ _ Hkey)) ].
Defined.


Lemma backfilledV2_both data :
  success (safeParse backfilledV2 data)
  = success (safeParse v1 data) && success (safeParse v2 data).
Proof. exact (object_app_shape (shape_of v1) (shape_of v2) [] data). Qed.

(** X3.  The backfilledV2 validator accepts a value exactly when both the v1
    and the v2 validator accept it. *)
Theorem backfilledV2_is_v1_and_v2 data :
  success (safeParse backfilledV2 data) = true
  ↔ success (safeParse v1 data) = true ∧ success (safeParse v2 data) = true.
Proof. by rewrite backfilledV2_both, andb_true_iff. Qed.


Lemma lookup_set_props_fmap (f : string → value) keys base key :
  key ∈ keys → set_props ((λ k, (k, f k)) <$> keys) base !! key = Some (f key).
Proof.
  induction keys as [ | k keys IH ] using rev_ind; intros Hin.
  - by apply elem_of_nil in Hin.
  - rewrite fmap_app. cbn [fmap list_fmap]. rewrite set_props_snoc. cbn [fst snd].
    destruct (decide (k = key)) as [ -> | Hne ].
    + by rewrite lookup_insert_eq.
    + rewrite lookup_insert_ne by done. apply IH.
      apply elem_of_app in Hin as [ Hin | Hin ]; [ done | ].
      apply list_elem_of_singleton in Hin. by subst.
Qed.

Lemma v2_backfilled (f : string → value) m :
  safeParse v2 (VObject (set_props ((λ k, (k, f k)) <$> v1_fields) m))
  = safeParse v2 (VObject m).
Proof.
  apply v2_keys_only; (rewrite lookup_set_props_notin; [ done | ]);
    rewrite v1_fields_keys; unfold v1_fields; intros Hin;
    repeat (apply elem_of_cons in Hin as [ Hin | Hin ]; [ discriminate | ]);
    by apply elem_of_nil in Hin.
Qed.

(** X11.  Both backfill functions take a valid V2 card to a card that the
    backfilledV2 validator accepts. *)
Theorem backfilled_cards_valid d :
  success (safeParse v2 d) = true →
  (∃ b, backfillV2 d = Return b ∧ success (safeParse backfilledV2 b) = true)
  ∧ success (safeParse backfilledV2 (backfillV2WithObsolescenceNotice d)) = true.
Proof.
  intros Hvalid. destruct (parse_object_success_inv _ _ _ Hvalid) as [m ->].
  destruct (v2_data_valid _ Hvalid) as [Hv1 _].
  destruct (v2_data_fields _ Hvalid) as (md & Hdata & _). cbn [field] in Hdata, Hv1.
  rewrite Hdata in Hv1. apply v1_success_iff in Hv1 as (md' & [= <-] & Hstrings).
  split.
  - eexists. split; [ by apply (backfillV2_intro m (VObject md)) | ].
    rewrite backfilledV2_both, v2_backfilled, Hvalid, andb_true_r.
    apply v1_success_iff. eexists. split; [ done | ]. intros key Hkey.
    rewrite lookup_set_props_fmap by done. cbn [field].
    destruct (Hstrings key Hkey) as [s Hs]. exists s. by rewrite (prop_Some _ _ _ Hs).
  - rewrite backfillV2WithObsolescenceNotice_object.
    rewrite backfilledV2_both, v2_backfilled, Hvalid, andb_true_r.
    apply v1_success_iff. eexists. split; [ done | ]. intros key Hkey.
    rewrite lookup_set_props_fmap by done. by eexists.
Qed.

Lemma backfilled_cards_valid_witness :
  success (safeParse v2 v2Card) = true
  ∧ success (safeParse backfilledV2 (backfillV2WithObsolescenceNotice v2Card)) = true.
Proof.
  assert (Hvalid : success (safeParse v2 v2Card) = true) by (vm_compute; reflexivity).
  split; [ exact Hvalid | exact (proj2 (backfilled_cards_valid v2Card Hvalid)) ].
Defined.


Lemma Forall_imap_success (g : nat → value → SafeParseReturnType)
    (h : value → SafeParseReturnType) items :
  (∀ i x, success (g i x) = success (h x)) →
  Forall (λ r, success r = true) (imap g items)
  ↔ Forall (λ x, success (h x) = true) items.
Proof.
  revert g. induction items as [ | x items IH ]; intros g Hgh; simpl.
  - split; constructor.
  - rewrite !Forall_cons, Hgh, IH; [ done | ]. intros i. apply Hgh.
Qed.

Lemma array_success_iff t p data :
  success (_parse (ZodArray t) p data) = true
  ↔ ∃ items, data = VArray items
             ∧ Forall (λ item, success (safeParse t item) = true) items.
Proof.
  destruct data as [ | | | | | items | ];
    try (split; [ done | by intros (? & ? & _) ]).
  simpl. unfold mergeArray.
  pose proof (Forall_imap_success (λ i item, _parse t (p ++ [inr i]) item)
                (safeParse t) items (λ i x, success_path t _ _ x)) as Hall.
  rewrite <- forallb_true_Forall in Hall. split.
  - intros Hok. exists items. split; [ done | ]. apply Hall.
    by destruct (forallb success _).
  - intros (? & [= <-] & Hitems). apply Hall in Hitems. by rewrite Hitems.
Qed.

(** X12.  The book validator accepts only an object whose [entries] is an
    array of values the entry validator accepts, and whose [extensions] is
    an object. *)
Theorem book_entries_valid data :
  success (safeParse book data) = true →
  ∃ m items,
    data = VObject m
    ∧ prop m "entries" = VArray items
    ∧ Forall (λ item, success (safeParse entry item) = true) items
    ∧ ∃ extensions, prop m "extensions" = VObject extensions.
Proof.
  intros Hvalid. destruct (parse_object_success_inv _ _ _ Hvalid) as [m ->].
  assert (Hentries : success (safeParse (z.array entry) (prop m "entries")) = true).
  { apply (parse_object_field (shape_of book) [] m); [ exact Hvalid | ].
    unfold book, shape_of, z.object. repeat constructor. }
  assert (Hext : success (safeParse (z.record z.any) (prop m "extensions")) = true).
  { apply (parse_object_field (shape_of book) [] m); [ exact Hvalid | ].
    unfold book, shape_of, z.object. repeat constructor. }
  apply array_success_iff in Hentries as (items & Hitems & Hall).
  exists m, items. repeat split; try done.
  destruct (prop m "extensions"); try done. by eexists.
Qed.

Lemma book_entries_valid_witness :
  success (safeParse book testBook) = true
  ∧ ∃ m items,
      testBook = VObject m
      ∧ prop m "entries" = VArray items
      ∧ Forall (λ item, success (safeParse entry item) = true) items
      ∧ ∃ extensions, prop m "extensions" = VObject extensions.
Proof.
  assert (Hvalid : success (safeParse book testBook) = true) by (vm_compute; reflexivity).
  split; [ exact Hvalid | exact (book_entries_valid testBook Hvalid) ].
Defined.


Lemma position_accepts v :
  success (safeParse (optional (z.union [z.literal "before_char"; z.literal "after_char"])) v)
  = true
  ↔ v = VUndefined ∨ v = VString "before_char" ∨ v = VString "after_char".
Proof.
  destruct v; simpl; try (split; [ done | by intros [ ? | [ ? | ? ] ] ]).
  - split; [ by left | done ].
  - unfold safeParse, optional, z.union, z.literal. simpl.
    case_decide as Hbefore; [ subst; split; [ auto | done ] | ]. simpl.
    case_decide as Hafter; [ subst; split; [ auto | done ] | ]. simpl.
    split; [ done | ]. intros [ ? | [ ? | ? ] ]; by simplify_eq.
Qed.

(** X13.  In an otherwise valid entry, [position] may be absent (undefined),
    ['before_char'] or ['after_char'], and nothing else. *)
Theorem entry_position m v :
  success (safeParse entry (VObject m)) = true →
  success (safeParse entry (VObject (<["position" := v]> m))) = true
  ↔ v = VUndefined ∨ v = VString "before_char" ∨ v = VString "after_char".
Proof.
  intros Hvalid. rewrite <- position_accepts.
  assert (Hshape : entry = ZodObject (take 13 (shape_of entry)
                     ++ [ ("position",
                           optional (z.union [z.literal "before_char";
                                              z.literal "after_char"])) ]))
    by reflexivity.
  unfold safeParse at 1. unfold safeParse in Hvalid.
  rewrite Hshape in Hvalid |- *. rewrite object_app_shape in Hvalid |- *.
  apply andb_true_iff in Hvalid as [Hrest _].
  rewrite (parse_object_ext _ _ (<["position" := v]> m) m).
  - rewrite Hrest, andb_true_l.
    rewrite parse_object, mergeObjectSync_success_iff.
    cbn [object_pairs fmap list_fmap fst snd]. rewrite Forall_singleton. cbn [fst snd].
    unfold prop, safeParse. rewrite lookup_insert_eq. cbn [from_option id].
    by rewrite (success_path _ ([] ++ [inl "position"]) []).
  - intros key Hkey. apply lookup_insert_ne. intros <-.
    vm_compute in Hkey.
    repeat (apply elem_of_cons in Hkey as [ Hkey | Hkey ]; [ discriminate | ]).
    by apply elem_of_nil in Hkey.
Qed.

Lemma entry_position_witness :
  success (safeParse entry bookEntry) = true
  ∧ success (safeParse entry
               (VObject (<["position" := VString "after_char"]> (spread bookEntry))))
    = true.
Proof.
  assert (Hvalid : success (safeParse entry (VObject (spread bookEntry))) = true)
    by (vm_compute; reflexivity).
  split; [ exact Hvalid | ].
  apply (proj2 (entry_position (spread bookEntry) (VString "after_char") Hvalid)).
  right. right. reflexivity.
Defined.


Lemma concat_issues_nonempty rs :
  Forall has_issue rs → forallb success rs = false →
  concat (result_issues <$> rs) ≠ [].
Proof.
  induction rs as [ | r rs IH ]; intros Hall Hfail; [ done | ].
  apply Forall_cons in Hall as [Hr Hall]. simpl in Hfail. cbn [fmap list_fmap concat].
  destruct r as [ v | e ]; simpl in *.
  - by apply IH.
  - intros Hnil. apply app_eq_nil in Hnil as [Hnil _]. by apply (Hr e).
Qed.

Lemma mergeArray_has_issue rs : Forall has_issue rs → has_issue (mergeArray rs).
Proof.
  intros Hall e. unfold mergeArray.
  destruct (forallb success rs) eqn:Hok; [ done | ].
  intros [= <-]. by apply concat_issues_nonempty.
Qed.

Lemma mergeObjectSync_has_issue pairs :
  Forall (λ pr, has_issue pr.1.2) pairs → has_issue (mergeObjectSync pairs).
Proof.
  intros Hall e. unfold mergeObjectSync, pair_issues.
  destruct (forallb _ pairs) eqn:Hok; [ done | ]. intros [= <-].
  replace ((λ p, result_issues p.1.2) <$> pairs)
    with (result_issues <$> ((λ pr, pr.1.2) <$> pairs))
    by by rewrite <- list_fmap_compose.
  apply concat_issues_nonempty; [ by apply Forall_fmap | ].
  rewrite <- Hok. clear.
  induction pairs as [ | pr pairs IH ]; [ done | ].
  cbn [fmap list_fmap forallb]. by f_equal.
Qed.

Lemma Forall_imap {A B} (P : B → Prop) (g : nat → A → B) l :
  (∀ i x, P (g i x)) → Forall P (imap g l).
Proof.
  revert g. induction l as [ | x l IH ]; intros g Hg; simpl; constructor; [ apply Hg | ].
  apply IH. intros i. apply Hg.
Qed.

Lemma parse_has_issue t : ∀ p data, has_issue (_parse t p data).
Proof.
  induction t as
    [ | | | | lit | element IH | valueType IH | shape IH | innerType IH | options IH ]
    using ZodType_nested_ind; intros p data e.
  - destruct data; by intros [= <-].
  - destruct data as [ | | | [] | | | ]; by intros [= <-].
  - destruct data; by intros [= <-].
  - done.
  - destruct data; simpl; try (by intros [= <-]). case_decide; by intros [= <-].
  - destruct data; simpl; try (by intros [= <-]).
    apply mergeArray_has_issue, Forall_imap. intros i x. apply IH.
  - destruct data; simpl; try (by intros [= <-]).
    apply mergeObjectSync_has_issue, Forall_fmap, Forall_forall. intros kv _. apply IH.
  - destruct data; try (by intros [= <-]). rewrite parse_object.
    apply mergeObjectSync_has_issue. unfold object_pairs. apply Forall_fmap.
    eapply Forall_impl; [ exact IH | ]. intros [k t] IHt. apply IHt.
  - destruct data; simpl; try done; apply IH.
  - rewrite parse_union. generalize (@nil ZodError).
    induction options as [ | t rest IHrest ]; intros errs; simpl; [ by intros [= <-] | ].
    apply Forall_cons in IH as [_ IH]. destruct (_parse t p data); [ done | by apply IHrest ].
Qed.

(** X14.  [parseToV2] throws nothing but a ZodError, and the error it throws,
    like the one of a failed [safeParseToV2], has at least one issue. *)
Theorem parse_errors_nonempty data :
  (∀ e, parseToV2 data = Throw e → ∃ issues, e = ThrowZodError issues ∧ issues ≠ [])
  ∧ (∀ issues, safeParseToV2 data = SafeParseError issues → issues ≠ []).
Proof.
  unfold parseToV2, safeParseToV2.
  destruct (safeParse v2 data) as [ d | e2 ] eqn:Hv2; [ done | ].
  apply parse_has_issue in Hv2.
  destruct (safeParse v1 data) as [ c | e1 ] eqn:Hv1.
  - rewrite (safeParse_v1ToV2 _ _ Hv1). done.
  - split; [ intros e [= <-]; by eexists | by intros issues [= <-] ].
Qed.

(** X15.  The card the v1 validator returns is rejected by the v2,
    backfilledV2, entry and book validators: a validated V1 card is
    never mistaken for one of the other shapes. *)
Theorem v1_output_rejected_elsewhere data c :
  safeParse v1 data = SafeParseSuccess c →
  success (safeParse v2 c) = false
  ∧ success (safeParse backfilledV2 c) = false
  ∧ success (safeParse entry c) = false
  ∧ success (safeParse book c) = false.
Proof.
  intros (m & ? & ? & ? & ? & ? & ? & _ & _ & _ & _ & _ & _ & _ & ->)%v1_success_inv.
  repeat split; vm_compute; reflexivity.
Qed.

Lemma v1_output_rejected_elsewhere_witness :
  safeParse v1 v1Card = SafeParseSuccess v1Card
  ∧ success (safeParse v2 v1Card) = false.
Proof.
  assert (Hparse : safeParse v1 v1Card = SafeParseSuccess v1Card)
    by (vm_compute; reflexivity).
  split; [ exact Hparse | exact (proj1 (v1_output_rejected_elsewhere _ _ Hparse)) ].
Defined.


Lemma parse_object_fields_ext shape p m1 m2 :
  (∀ key t, (key, t) ∈ shape →
     _parse t (p ++ [inl key]) (prop m1 key) = _parse t (p ++ [inl key]) (prop m2 key)
     ∧ has_key m1 key = has_key m2 key) →
  _parse (ZodObject shape) p (VObject m1) = _parse (ZodObject shape) p (VObject m2).
Proof.
  intros Hfields. rewrite !parse_object. f_equal. unfold object_pairs.
  apply list_fmap_ext. intros i [key t] Hi. simpl.
  destruct (Hfields key t) as [-> ->]; [ by eapply list_elem_of_lookup_2 | done ].
Qed.

(** X16.  Upgrading commutes with validation: for an input [d] the v1
    validator accepts with output [c], validating [v1ToV2 d] with v2
    succeeds and gives [v1ToV2 c]; the fields [d] has beyond V1 do not reach
    the result. *)
Theorem v1ToV2_then_v2 d c :
  safeParse v1 d = SafeParseSuccess c →
  safeParse v2 (v1ToV2 d) = SafeParseSuccess (v1ToV2 c).
Proof.
  intros Hv1. rewrite <- (safeParse_v1ToV2 _ _ Hv1).
  destruct (v1_output _ _ Hv1) as (mc & -> & Hmc).
  apply (f_equal success) in Hv1. cbn [success] in Hv1.
  destruct (parse_object_success_inv _ _ _ Hv1) as [m ->]. cbn [spread] in Hmc.
  unfold v1ToV2, safeParse, v2, z.object. cbn [spread].
  apply parse_object_fields_ext. intros key t Hin.
  repeat (apply elem_of_cons in Hin as [ [= -> ->] | Hin ]);
    [ | | | by apply elem_of_nil in Hin ].
  - split; [ | unfold has_key ]; by solve_lookup.
  - split; [ | unfold has_key ]; by solve_lookup.
  - split; [ | unfold has_key; by solve_lookup ].
    unfold set_props at 1 3. cbn [fold_left fst snd]. unfold prop.
    rewrite !lookup_insert_eq. cbn [from_option id].
    rewrite v2_data_shape. apply parse_object_ext. intros k Hk.
    match goal with
    | |- set_props ?fields _ !! _ = _ =>
        destruct (decide (k ∈ fields.*1)) as [ Hset | Hnotset ]
    end.
    + by apply lookup_set_props_in.
    + rewrite !lookup_set_props_notin by done. rewrite Hmc.
      rewrite bool_decide_eq_true_2; [ done | ].
      rewrite fmap_app in Hk. apply elem_of_app in Hk as [ Hk | Hk ]; [ exact Hk | ].
      exfalso. apply Hnotset. exact Hk.
Qed.

Lemma v1ToV2_then_v2_witness :
  ∃ c, safeParse v1 v2CardWithBackfilledV1Fields = SafeParseSuccess c
       ∧ safeParse v2 (v1ToV2 v2CardWithBackfilledV1Fields)
         = SafeParseSuccess (v1ToV2 c).
Proof.
  eexists. split; [ vm_compute; reflexivity | ].
  apply (v1ToV2_then_v2 v2CardWithBackfilledV1Fields). vm_compute. reflexivity.
Defined.


Lemma object_output shape p data y :
  NoDup shape.*1 →
  "__proto__" ∉ shape.*1 →
  _parse (ZodObject shape) p data = SafeParseSuccess y →
  ∃ my, y = VObject my
        ∧ (∀ key, key ∉ shape.*1 → my !! key = None)
        ∧ (∀ key t, (key, t) ∈ shape →
                    safeParse t (field data key) = SafeParseSuccess (prop my key)).
Proof.
  intros Hnodup Hnoproto Hparse.
  assert (Hok : success (_parse (ZodObject shape) p data) = true) by by rewrite Hparse.
  destruct (parse_object_success_inv _ _ _ Hok) as [m ->]. clear Hok.
  rewrite parse_object in Hparse. apply mergeObjectSync_success in Hparse as [Hall ->].
  assert (Hkeys : (object_pairs p m shape).*1.*1 = shape.*1).
  { unfold object_pairs. by rewrite <- !list_fmap_compose. }
  eexists. split; [ done | ]. split.
  - intros key Hkey. apply final_object_lookup_notin. by rewrite Hkeys.
  - intros key t Hin. cbn [field].
    assert (Hpr : (key, _parse t (p ++ [inl key]) (prop m key), has_key m key)
                  ∈ object_pairs p m shape).
    { unfold object_pairs. apply list_elem_of_fmap. by exists (key, t). }
    pose proof (proj1 (Forall_forall _ _) Hall _ Hpr) as Hfield. simpl in Hfield.
    apply success_result_value in Hfield.
    pose proof (final_object_lookup _ _ (eq_ind_r NoDup Hnodup Hkeys) Hpr) as Hl.
    cbn [fst snd] in Hl. rewrite Hfield in Hl.
    apply set_pair_stable in Hl as [Hprop _].
    2: { intros ->. apply Hnoproto. apply list_elem_of_fmap. by exists ("__proto__", t). }
    rewrite Hprop. unfold safeParse.
    apply (same_outcome_success (_parse t (p ++ [inl key]) (prop m key))); [ | done ].
    apply parse_path_irrelevant.
Qed.

Lemma validators_objects t : t ∈ validators → t = ZodObject (shape_of t).
Proof.
  intros Hin. unfold validators in Hin.
  repeat (apply elem_of_cons in Hin as [ -> | Hin ]; [ reflexivity | ]).
  by apply elem_of_nil in Hin.
Qed.

Lemma validators_unique_keys t :
  t ∈ validators → NoDup (shape_of t).*1 ∧ "__proto__" ∉ (shape_of t).*1.
Proof.
  intros Hin. pose proof (validators_well_formed _ Hin) as Hwf.
  rewrite (validators_objects _ Hin) in Hwf.
  rewrite well_formed_object in Hwf. apply andb_true_iff in Hwf as [Hnodup _].
  by apply bool_decide_eq_true in Hnodup.
Qed.

(** X17.  The output of each exported validator is an object with no key
    outside the validator's shape, and under each key of the shape it holds
    what that field's schema returns for the input's field. *)
Theorem validators_strip t data y :
  t ∈ validators →
  safeParse t data = SafeParseSuccess y →
  ∃ my, y = VObject my
        ∧ (∀ key, key ∉ (shape_of t).*1 → my !! key = None)
        ∧ (∀ key s, (key, s) ∈ shape_of t →
                    safeParse s (field data key) = SafeParseSuccess (prop my key)).
Proof.
  intros Hin Hparse.
  destruct (validators_unique_keys _ Hin) as [Hnodup Hnoproto].
  apply (object_output (shape_of t) [] data y); [ done | done | ].
  by rewrite <- validators_objects.
Qed.

Lemma validators_strip_witness :
  entry ∈ validators
  ∧ ∃ y, safeParse entry bookEntry = SafeParseSuccess y
         ∧ ∃ my, y = VObject my
                 ∧ (∀ key, key ∉ (shape_of entry).*1 → my !! key = None)
                 ∧ (∀ key s, (key, s) ∈ shape_of entry →
                      safeParse s (field bookEntry key) = SafeParseSuccess (prop my key)).
Proof.
  assert (Hin : entry ∈ validators) by (unfold validators; solve_elem_of).
  split; [ exact Hin | ]. eexists. split; [ vm_compute; reflexivity | ].
  apply (validators_strip entry bookEntry _ Hin). vm_compute. reflexivity.
Defined.


(** X18.  For each exported validator, a value it accepts that has no field
    beyond the schema, and no key [__proto__] where the schema reads an
    object or a record, comes back structurally equal. *)
Theorem validators_roundtrip t data y :
  t ∈ validators →
  safeParse t data = SafeParseSuccess y →
  no_unknown_keys t data = true →
  no_proto_keys t data = true →
  toEqual y data.
Proof. intros _. apply parse_toEqual. Qed.

Lemma validators_roundtrip_witness :
  book ∈ validators
  ∧ no_unknown_keys book testBook = true
  ∧ no_proto_keys book testBook = true
  ∧ ∃ y, safeParse book testBook = SafeParseSuccess y ∧ toEqual y testBook.
Proof.
  assert (Hin : book ∈ validators) by (unfold validators; solve_elem_of).
  assert (Hkeys : no_unknown_keys book testBook = true) by (vm_compute; reflexivity).
  assert (Hproto : no_proto_keys book testBook = true) by (vm_compute; reflexivity).
  split; [ exact Hin | ]. split; [ exact Hkeys | ]. split; [ exact Hproto | ].
  eexists. split; [ vm_compute; reflexivity | ].
  apply (validators_roundtrip book testBook _ Hin); [ | exact Hkeys | exact Hproto ].
  vm_compute. reflexivity.
Defined.


(** X19.  A key [__proto__] of its own in a record is lost: the book
    validator accepts a book whose [extensions] has that one key and returns
    the book with an empty [extensions], which is not structurally equal to
    the input. *)
Theorem record_drops_proto_key :
  no_unknown_keys book bookWithProtoKey = true
  ∧ safeParse book bookWithProtoKey
    = SafeParseSuccess
        (object_literal [ ("entries", VArray []); ("extensions", VObject ∅) ])
  ∧ ¬ toEqual (object_literal [ ("entries", VArray []); ("extensions", VObject ∅) ])
              bookWithProtoKey.
Proof.
  split; [ vm_compute; reflexivity | ]. split; [ vm_compute; reflexivity | ].
  intros Heq. apply toEqual_object_inv with (key := "extensions") in Heq.
  vm_compute in Heq.
  apply toEqual_object_inv with (key := "__proto__") in Heq.
  apply toEqual_undefined_inv in Heq. vm_compute in Heq. discriminate.
Qed.
